(** * Demucs for bit regression: construction, padding arithmetic and tensor shapes

    A shallow embedding of [BitRegressionModel.py].  Integers are [Z].
    Floating-point numbers are the rationals that binary64 represents: the
    true division of two integers and the product of a float and an integer
    are rounded to the nearest such number, ties to even, and raise
    [OverflowError] where Python does.  Exceptions are the [Raise] branch of
    [result].  Construction threads the list of the submodules allocated so
    far.  Tensors are represented by their shapes, and the [torch] operations
    by their documented shape rules; inside the U-Net a tensor also carries
    the expression that computes it, and after the first output head the
    position each of its entries is read from. *)

From Stdlib Require Import ZArith QArith Qround Qminmax Qpower List String DecimalString Bool Lia.
Import ListNotations.

Local Open Scope Z_scope.

(** ** Exceptions and the error monad *)

Inductive error : Type :=
| ValueError (msg : string)
| ZeroDivisionError
| OverflowError
| IndexError
| RuntimeError.

Inductive result (A : Type) : Type :=
| Ok (a : A)
| Raise (e : error).

Arguments Ok {A} a.
Arguments Raise {A} e.

Definition bind {A B : Type} (c : result A) (k : A -> result B) : result B :=
  match c with
  | Ok a => k a
  | Raise e => Raise e
  end.

Notation "x <- c ;; k" := (bind c (fun x => k))
  (at level 61, c at next level, right associativity).
Notation "' pat <- c ;; k" := (bind c (fun x => match x with pat => k end))
  (at level 61, pat pattern, c at next level, right associativity).

(** [for x in xs: s = body(x, s)] *)
Fixpoint for_each {A S : Type} (xs : list A) (body : A -> S -> result S) (s : S)
  : result S :=
  match xs with
  | [] => Ok s
  | x :: xs' => s' <- body x s ;; for_each xs' body s'
  end.

(** ** Binary64 rounding *)

Module Float64.

(** The integer nearest to [num / den], ties to even, for [0 < den]. *)
Definition round_half_even (num den : Z) : Z :=
  let fl := num / den in
  let r := num mod den in
  if 2 * r <? den then fl
  else if den <? 2 * r then fl + 1
  else if Z.even fl then fl else fl + 1.

(** The exponent of the last place of the binary64 numbers around [p / q],
    for [0 < p] and [0 < q]: [floor (log2 (p / q)) - 52], and [-1074] in the
    subnormal range. *)
Definition exponent (p q : Z) : Z :=
  let g := Z.log2 p - Z.log2 q in
  let lg := if q * 2 ^ Z.max 0 g <=? p * 2 ^ Z.max 0 (- g) then g else g - 1 in
  Z.max (lg - 52) (-1074).

(** [m * 2^e] as a rational. *)
Definition value (m e : Z) : Q :=
  inject_Z (m * 2 ^ Z.max 0 e) / inject_Z (2 ^ Z.max 0 (- e)).

(** The binary64 number nearest to [p / q], for [0 < p] and [0 < q]; [None]
    when that is beyond the largest finite one. *)
Definition round_pos (p q : Z) : option Q :=
  let e := exponent p q in
  let m := round_half_even (p * 2 ^ Z.max 0 (- e)) (q * 2 ^ Z.max 0 e) in
  if 2 ^ 1024 <=? m * 2 ^ Z.max 0 e then None else Some (value m e).

(** The binary64 number nearest to [a / b], for [b <> 0]. *)
Definition round (a b : Z) : option Q :=
  if a =? 0 then Some 0%Q
  else
    match round_pos (Z.abs a) (Z.abs b) with
    | None => None
    | Some x => Some (if xorb (a <? 0) (b <? 0) then (- x)%Q else x)
    end.

(** Below this magnitude every integer is a binary64 number: [2^53]. *)
Definition exact_bound : Z := 9007199254740992.

End Float64.

(** ** Python arithmetic *)

Module Py.

(** [range(n)] *)
Definition range (n : Z) : list Z := map Z.of_nat (seq 0 (Z.to_nat n)).

(** [a / b] on integers: the correctly rounded quotient. *)
Definition true_div (a b : Z) : result Q :=
  if b =? 0 then Raise ZeroDivisionError
  else
    match Float64.round a b with
    | Some x => Ok x
    | None => Raise OverflowError
    end.

(** [a // b] on integers: the quotient rounded towards minus infinity *)
Definition floor_div (a b : Z) : result Z :=
  if b =? 0 then Raise ZeroDivisionError else Ok (a / b).

(** [math.ceil] of a float *)
Definition ceil (q : Q) : Z := Qceiling q.

(** [int(q)] of a finite float: truncation towards zero *)
Definition int (q : Q) : Z := Z.quot (Qnum q) (Zpos (Qden q)).

(** [x in xs] for a list of integers *)
Definition mem (x : Z) (xs : list Z) : bool := existsb (Z.eqb x) xs.

(** A number given as an argument: an integer, or the float nearest to a
    rational. *)
Inductive number : Type :=
| Int (z : Z)
| Float (x : Q).

Definition nan_error : error := ValueError "cannot convert float NaN to integer".

(** [int(g * h)] for a number [g] and an integer [h].  With a float [g] the
    integer is converted to a float and the product is rounded; an infinite
    product cannot be converted back, nor can a product that is not a
    number. *)
Definition int_mul (g : number) (h : Z) : result Z :=
  match g with
  | Int z => Ok (z * h)
  | Float x =>
      match Float64.round h 1 with
      | None => Raise OverflowError
      | Some hf =>
          match Float64.round (Qnum x) (Zpos (Qden x)) with
          | None => if h =? 0 then Raise nan_error else Raise OverflowError
          | Some gf =>
              let p := (gf * hf)%Q in
              match Float64.round (Qnum p) (Zpos (Qden p)) with
              | None => Raise OverflowError
              | Some r => Ok (int r)
              end
          end
      end
  end.

End Py.

(** ** The constructor's arguments *)

Record Config : Type := mkConfig {
  chin : Z;
  chout : Z;
  hidden : Z;
  depth : Z;
  kernel_size : Z;
  stride : Z;
  causal : bool;
  resample : Z;
  growth : Py.number;
  max_hidden : Z;
  normalize : bool;
  glu : bool;
  rescale : Q;
  floor : Q;
  n_bits : Z;
  kernel_out : Z;
  sample_rate : Z
}.

(** The defaults of [Demucs.__init__]. *)
Definition default_config : Config :=
  {| chin := 2; chout := 2; hidden := 64; depth := 5; kernel_size := 8;
     stride := 2; causal := false; resample := 2; growth := Py.Int 2;
     max_hidden := 10000; normalize := false; glu := true;
     rescale := 1 # 10; floor := 1 # 1000; n_bits := 5120; kernel_out := 64;
     sample_rate := 16000 |}.

(** ** [Demucs.valid_length] *)

(** The body of the first loop of [valid_length]. *)
Definition shrink_step (self : Config) (idx : Z) (length : Z) : result Z :=
  q <- Py.true_div (length - self.(kernel_size)) self.(stride) ;;
  let length := Py.ceil q + 1 in
  let length := Z.max length 1 in
  Ok length.

(** The body of the second loop of [valid_length]. *)
Definition expand_step (self : Config) (idx : Z) (length : Z) : result Z :=
  Ok ((length - 1) * self.(stride) + self.(kernel_size)).

(** [valid_length]; [math.ceil] of the integer [length * self.resample] is
    that integer. *)
Definition valid_length (self : Config) (length : Z) : result Z :=
  let length := length * self.(resample) in
  length <- for_each (Py.range self.(depth)) (shrink_step self) length ;;
  length <- for_each (Py.range self.(depth)) (expand_step self) length ;;
  q <- Py.true_div length self.(resample) ;;
  let length := Py.ceil q in
  Ok length.

(** The configurations [valid_length] is specified for. *)
Definition valid_config (self : Config) : bool :=
  Py.mem self.(resample) [1; 2; 4]
  && (0 <=? self.(depth)) && (1 <=? self.(kernel_size)) && (1 <=? self.(stride)).

(** *** The arithmetic of one stage, in integers *)

(** The least integer [c] with [a <= b * c], for [0 < b]. *)
Definition ceil_div (a b : Z) : Z := - ((- a) / b).

(** Length after one strided convolution, as [valid_length] counts it. *)
Definition enc_len (k s l : Z) : Z := Z.max (ceil_div (l - k) s + 1) 1.

(** Length after one transposed convolution. *)
Definition dec_len (k s l : Z) : Z := (l - 1) * s + k.

(** Length before the final un-scaling: [depth] shrinking steps followed by
    [depth] expansions of the scaled length. *)
Definition expanded_length (self : Config) (length : Z) : Z :=
  let n := Z.to_nat self.(depth) in
  let k := self.(kernel_size) in
  let s := self.(stride) in
  Nat.iter n (dec_len k s) (Nat.iter n (enc_len k s) (length * self.(resample))).

(** [valid_length] in closed form, the quotients rounded up. *)
Definition valid_length_ceil (self : Config) (length : Z) : Z :=
  ceil_div (expanded_length self length) self.(resample).

(** The lengths on which the floating-point quotients of [valid_length] have
    the ceiling of the exact ones: a length that is not negative, with the
    kernel size, the stride and the expanded length, which is the largest
    number [valid_length] comes to, below [2^53]. *)
Definition float_exact (self : Config) (length : Z) : bool :=
  (0 <=? length)
  && (self.(kernel_size) <? Float64.exact_bound)
  && (self.(stride) <? Float64.exact_bound)
  && (expanded_length self length <? Float64.exact_bound).

(** The per-stage map as the specification words it: the quotient rounded
    down, the result floored below at one. *)
Definition enc_len_floor (k s l : Z) : Z := Z.max ((l - k) / s + 1) 1.

(** [valid_length] as the specification words it. *)
Definition valid_length_spec (self : Config) (length : Z) : Z :=
  let n := Z.to_nat self.(depth) in
  let k := self.(kernel_size) in
  let s := self.(stride) in
  ceil_div
    (Nat.iter n (dec_len k s) (Nat.iter n (enc_len_floor k s) (length * self.(resample))))
    self.(resample).

(** The shortest length [valid_length] returns when there is at least one
    stage: [depth] expansions of a single step, un-scaled. *)
Definition min_valid_length (self : Config) : Z :=
  ceil_div
    (Nat.iter (Z.to_nat self.(depth)) (dec_len self.(kernel_size) self.(stride)) 1)
    self.(resample).

(** ** [Demucs.total_stride] *)

Section TotalStride.

(** With a negative depth the power is a float, computed by the platform's
    [pow], and the floor division is one of floats; what that evaluates to,
    or raises, is left open. *)
Variable float_total_stride : Z -> Z -> Z -> result Z.

(** The property [total_stride]: [self.stride ** self.depth // self.resample],
    the power binding tighter than the division. *)
Definition total_stride (self : Config) : result Z :=
  if self.(depth) <? 0
  then float_total_stride self.(stride) self.(depth) self.(resample)
  else Py.floor_div (self.(stride) ^ self.(depth)) self.(resample).

End TotalStride.

(** ** The architecture built by [Demucs.__init__] *)

(** The [torch.nn] modules the model is made of, by their constructor
    arguments. *)
Inductive Layer : Type :=
| Conv1d (in_channels out_channels kernel stride_ : Z)
| ConvTranspose1d (in_channels out_channels kernel stride_ : Z)
| ReLU
| GLU (dim : Z)
| LSTM (bidirectional : bool) (num_layers hidden_size input_size : Z)
| Linear (in_features out_features : Z).

(** [nn.Sequential] *)
Definition Sequential : Type := list Layer.

Record BLSTM : Type := mkBLSTM {
  blstm_lstm : Layer;
  blstm_linear : option Layer
}.

Record Demucs : Type := mkDemucs {
  cfg : Config;
  encoder : list Sequential;
  decoder : list Sequential;
  output_bit : Layer;
  output_bit1 : Layer;
  output_bit2 : Layer;
  lstm : BLSTM
}.

(** Construction threads the list of submodules that own parameter tensors,
    in the order they are allocated; an exception leaves the list as it was
    when it was raised. *)
Definition Ctor (A : Type) : Type := list Layer -> result A * list Layer.

Definition ctor_ret {A : Type} (a : A) : Ctor A := fun log => (Ok a, log).

Definition ctor_raise {A : Type} (e : error) : Ctor A := fun log => (Raise e, log).

Definition ctor_lift {A : Type} (r : result A) : Ctor A := fun log => (r, log).

Definition ctor_bind {A B : Type} (c : Ctor A) (k : A -> Ctor B) : Ctor B :=
  fun log =>
    match c log with
    | (Ok a, log') => k a log'
    | (Raise e, log') => (Raise e, log')
    end.

Notation "x <~ c ;; k" := (ctor_bind c (fun x => k))
  (at level 61, c at next level, right associativity).

Definition hidden_size_error : error := ValueError "hidden_size must be greater than zero".

Definition num_layers_error : error := ValueError "num_layers must be greater than zero".

(** What the constructor of a [torch.nn] module checks before it returns.
    The weight of a convolution or of a linear module is a tensor whose sizes
    are the channel counts and the kernel size: an empty tensor is fine, a
    negative size raises [RuntimeError].  The stride is only looked at when
    the module is applied.  [nn.LSTM] refuses a hidden size or a number of
    layers that is not positive with a [ValueError], before it allocates its
    weights.  Sizes are taken to fit in a machine integer and tensors to fit
    in memory. *)
Definition check_sizes (l : Layer) : result unit :=
  match l with
  | Conv1d cin cout k _ | ConvTranspose1d cin cout k _ =>
      if (cin <? 0) || (cout <? 0) || (k <? 0) then Raise RuntimeError else Ok tt
  | LSTM _ layers h i =>
      if h <=? 0 then Raise hidden_size_error
      else if layers <=? 0 then Raise num_layers_error
      else if i <? 0 then Raise RuntimeError
      else Ok tt
  | Linear fin fout =>
      if (fin <? 0) || (fout <? 0) then Raise RuntimeError else Ok tt
  | ReLU | GLU _ => Ok tt
  end.

(** A convolution, transposed convolution, linear or recurrent module is
    constructed: once its sizes are accepted its parameters are allocated. *)
Definition alloc (l : Layer) : Ctor Layer :=
  fun log =>
    match check_sizes l with
    | Ok _ => (Ok l, log ++ [l])
    | Raise e => (Raise e, log)
    end.

Fixpoint ctor_for_each {A S : Type} (xs : list A) (body : A -> S -> Ctor S) (s : S)
  : Ctor S :=
  match xs with
  | [] => ctor_ret s
  | x :: xs' => s' <~ body x s ;; ctor_for_each xs' body s'
  end.

Definition resample_error : error := ValueError "Resample should be 1, 2 or 4.".

(** [BLSTM.__init__] *)
Definition BLSTM_init (dim : Z) (layers : Z) (bi : bool) : Ctor BLSTM :=
  l <~ alloc (LSTM bi layers dim dim) ;;
  if bi then
    lin <~ alloc (Linear (2 * dim) dim) ;;
    ctor_ret {| blstm_lstm := l; blstm_linear := Some lin |}
  else
    ctor_ret {| blstm_lstm := l; blstm_linear := None |}.

(** The variables the construction loop updates. *)
Record LoopState : Type := mkLoopState {
  ls_chin : Z;
  ls_chout : Z;
  ls_hidden : Z;
  ls_encoder : list Sequential;
  ls_decoder : list Sequential
}.

(** [min(int(growth * hidden), max_hidden)] *)
Definition grow (c : Config) (hidden : Z) : result Z :=
  v <- Py.int_mul c.(growth) hidden ;;
  Ok (Z.min v c.(max_hidden)).

(** The body of [for index in range(depth)] in [__init__]. *)
Definition init_step (c : Config) (activation : Layer) (ch_scale : Z)
    (index : Z) (st : LoopState) : Ctor LoopState :=
  let chin := st.(ls_chin) in
  let chout := st.(ls_chout) in
  let hidden := st.(ls_hidden) in
  e1 <~ alloc (Conv1d chin hidden c.(kernel_size) c.(stride)) ;;
  e2 <~ alloc (Conv1d hidden (hidden * ch_scale) 1 1) ;;
  let encode := [e1; ReLU; e2; activation] in
  let encoder := st.(ls_encoder) ++ [encode] in
  d1 <~ alloc (Conv1d hidden (ch_scale * hidden) 1 1) ;;
  d2 <~ alloc (ConvTranspose1d hidden chout c.(kernel_size) c.(stride)) ;;
  let decode := [d1; activation; d2] in
  let decode := if 0 <? index then decode ++ [ReLU] else decode in
  let decoder := decode :: st.(ls_decoder) in
  let chout := hidden in
  let chin := hidden in
  hidden <~ ctor_lift (grow c hidden) ;;
  ctor_ret {| ls_chin := chin; ls_chout := chout; ls_hidden := hidden;
              ls_encoder := encoder; ls_decoder := decoder |}.

(** [Demucs.__init__].  The final [rescale_module] divides the weights it
    finds by a scalar and leaves every shape as it is; it is not modelled. *)
Definition Demucs_init (c : Config) : Ctor Demucs :=
  if negb (Py.mem c.(resample) [1; 2; 4]) then ctor_raise resample_error
  else
    let activation := if c.(glu) then GLU 1 else ReLU in
    let ch_scale := if c.(glu) then 2 else 1 in
    factor <~ ctor_lift (Py.floor_div 40960 c.(kernel_out)) ;;
    nb <~ ctor_lift (Py.floor_div c.(n_bits) factor) ;;
    ob <~ alloc (Conv1d c.(chout) nb c.(kernel_out) c.(kernel_out)) ;;
    factor <~ ctor_lift (Py.floor_div 40960 c.(kernel_out)) ;;
    ob1 <~ alloc (Conv1d c.(chout) c.(kernel_out) c.(kernel_out) c.(kernel_out)) ;;
    nb2 <~ ctor_lift (Py.floor_div c.(n_bits) factor) ;;
    ob2 <~ alloc (Conv1d 1 nb2 c.(kernel_out) c.(kernel_out)) ;;
    st <~ ctor_for_each (Py.range c.(depth)) (init_step c activation ch_scale)
            {| ls_chin := c.(chin); ls_chout := c.(chout); ls_hidden := c.(hidden);
               ls_encoder := []; ls_decoder := [] |} ;;
    rnn <~ BLSTM_init st.(ls_chin) 2 (negb c.(causal)) ;;
    ctor_ret {| cfg := c; encoder := st.(ls_encoder); decoder := st.(ls_decoder);
                output_bit := ob; output_bit1 := ob1; output_bit2 := ob2;
                lstm := rnn |}.

(** ** The architecture in closed form *)

(** Hidden width of stage [i]: the value of [hidden] when iteration [i] of
    the construction loop starts, as long as the growth raised nothing. *)
Fixpoint width (c : Config) (i : nat) : Z :=
  match i with
  | O => c.(hidden)
  | S i' => match grow c (width c i') with Ok w => w | Raise _ => 0 end
  end.

(** Value of [chin] when iteration [i] starts. *)
Definition enc_in (c : Config) (i : nat) : Z :=
  match i with O => c.(chin) | S i' => width c i' end.

(** Value of [chout] when iteration [i] starts. *)
Definition dec_out (c : Config) (i : nat) : Z :=
  match i with O => c.(chout) | S i' => width c i' end.

Definition activation_of (c : Config) : Layer := if c.(glu) then GLU 1 else ReLU.

Definition ch_scale_of (c : Config) : Z := if c.(glu) then 2 else 1.

Definition enc_stage (c : Config) (i : nat) : Sequential :=
  [Conv1d (enc_in c i) (width c i) c.(kernel_size) c.(stride); ReLU;
   Conv1d (width c i) (width c i * ch_scale_of c) 1 1; activation_of c].

Definition dec_stage (c : Config) (i : nat) : Sequential :=
  [Conv1d (width c i) (ch_scale_of c * width c i) 1 1; activation_of c;
   ConvTranspose1d (width c i) (dec_out c i) c.(kernel_size) c.(stride)]
  ++ (if 0 <? Z.of_nat i then [ReLU] else []).

Definition loop_state (c : Config) (n : nat) : LoopState :=
  {| ls_chin := enc_in c n; ls_chout := dec_out c n; ls_hidden := width c n;
     ls_encoder := map (enc_stage c) (seq 0 n);
     ls_decoder := rev (map (dec_stage c) (seq 0 n)) |}.

Definition blstm_of (dim : Z) (bi : bool) : BLSTM :=
  {| blstm_lstm := LSTM bi 2 dim dim;
     blstm_linear := if bi then Some (Linear (2 * dim) dim) else None |}.

Definition arch (c : Config) : Demucs :=
  let n := Z.to_nat c.(depth) in
  let nb := c.(n_bits) / (40960 / c.(kernel_out)) in
  {| cfg := c;
     encoder := map (enc_stage c) (seq 0 n);
     decoder := rev (map (dec_stage c) (seq 0 n));
     output_bit := Conv1d c.(chout) nb c.(kernel_out) c.(kernel_out);
     output_bit1 := Conv1d c.(chout) c.(kernel_out) c.(kernel_out) c.(kernel_out);
     output_bit2 := Conv1d 1 nb c.(kernel_out) c.(kernel_out);
     lstm := blstm_of (enc_in c n) (negb c.(causal)) |}.

(** ** What the construction checks *)

(** The exceptions of the constructors of the submodules and of the growth
    of the width. *)
Definition ctor_error (e : error) : Prop :=
  e = RuntimeError \/ e = hidden_size_error \/ e = num_layers_error
  \/ e = OverflowError \/ e = Py.nan_error.

(** What a construction that raised nothing has checked. *)
Record built (c : Config) : Prop := mkBuilt {
  built_resample : Py.mem c.(resample) [1; 2; 4] = true;
  built_kernel_out : 1 <= c.(kernel_out) <= 40960;
  built_chout : 0 <= c.(chout);
  built_bits : 0 <= c.(n_bits) / (40960 / c.(kernel_out));
  built_widths : forall i, (i < Z.to_nat c.(depth))%nat ->
                   0 <= width c i /\ grow c (width c i) = Ok (width c (S i));
  built_lstm : 1 <= enc_in c (Z.to_nat c.(depth))
}.

(** ** Tensor shapes and the shape rules of the [torch] operations *)

Definition shape : Type := list Z.

Module Torch.

(** [x.dim()] *)
Definition dim (x : shape) : Z := Z.of_nat (List.length x).

(** [x.shape[-1]] *)
Definition last_dim (x : shape) : result Z :=
  match rev x with
  | l :: _ => Ok l
  | [] => Raise IndexError
  end.

(** Replace the last dimension. *)
Definition set_last (x : shape) (l : Z) : shape := removelast x ++ [l].

(** Output length of a convolution without padding or dilation. *)
Definition conv_len (k s l : Z) : Z := (l - k) / s + 1.

(** Output length of a transposed convolution without padding. *)
Definition conv_transpose_len (k s l : Z) : Z := (l - 1) * s + k.

(** What a convolution asks of a [c]-channel input of length [l]: the
    channel count is the module's, the weight is not empty, the kernel fits
    and the stride is positive. *)
Definition conv_accepts (cin cout k s c l : Z) : bool :=
  (c =? cin) && (1 <=? cin) && (1 <=? cout) && (1 <=? k) && (k <=? l) && (0 <? s).

(** [nn.Conv1d]: batched [(N, C, L)] or unbatched [(C, L)] input. *)
Definition conv1d (cin cout k s : Z) (x : shape) : result shape :=
  match x with
  | [n; c; l] =>
      if conv_accepts cin cout k s c l
      then Ok [n; cout; conv_len k s l] else Raise RuntimeError
  | [c; l] =>
      if conv_accepts cin cout k s c l
      then Ok [cout; conv_len k s l] else Raise RuntimeError
  | _ => Raise RuntimeError
  end.

(** What a transposed convolution asks of its input. *)
Definition conv_transpose_accepts (cin cout k s c l : Z) : bool :=
  (c =? cin) && (1 <=? cin) && (1 <=? cout) && (1 <=? k) && (1 <=? l) && (0 <? s).

(** [nn.ConvTranspose1d] *)
Definition conv_transpose1d (cin cout k s : Z) (x : shape) : result shape :=
  match x with
  | [n; c; l] =>
      if conv_transpose_accepts cin cout k s c l
      then Ok [n; cout; conv_transpose_len k s l] else Raise RuntimeError
  | [c; l] =>
      if conv_transpose_accepts cin cout k s c l
      then Ok [cout; conv_transpose_len k s l] else Raise RuntimeError
  | _ => Raise RuntimeError
  end.

(** [nn.GLU(d)]: dimension [d] is halved and has to be even. *)
Fixpoint glu (d : nat) (x : shape) : result shape :=
  match d, x with
  | O, c :: rest => if c mod 2 =? 0 then Ok (c / 2 :: rest) else Raise RuntimeError
  | S d', c :: rest => rest' <- glu d' rest ;; Ok (c :: rest')
  | _, [] => Raise IndexError
  end.

Definition lstm_rank_error (d : Z) : error :=
  ValueError
    (String.append "LSTM: Expected input to be 2D or 3D, got "
       (String.append (NilZero.string_of_int (Z.to_int d)) "D instead")).

(** [nn.LSTM] on [(L, N, H_in)] or unbatched [(L, H_in)]: an input of
    another rank is a [ValueError]; a feature size that is not the module's,
    or an empty sequence, a [RuntimeError]. *)
Definition lstm (bi : bool) (hidden_size input_size : Z) (x : shape) : result shape :=
  let d := if bi then 2 else 1 in
  match x with
  | [l; n; h] =>
      if (h =? input_size) && (1 <=? l) then Ok [l; n; d * hidden_size]
      else Raise RuntimeError
  | [l; h] =>
      if (h =? input_size) && (1 <=? l) then Ok [l; d * hidden_size]
      else Raise RuntimeError
  | _ => Raise (lstm_rank_error (dim x))
  end.

(** [nn.Linear] acts on the last dimension. *)
Definition linear (fin fout : Z) (x : shape) : result shape :=
  match rev x with
  | l :: _ => if l =? fin then Ok (set_last x fout) else Raise RuntimeError
  | [] => Raise RuntimeError
  end.

(** [x.permute(2, 0, 1)] *)
Definition permute_2_0_1 (x : shape) : result shape :=
  match x with
  | [a; b; c] => Ok [c; a; b]
  | _ => Raise RuntimeError
  end.

(** [x.permute(1, 2, 0)] *)
Definition permute_1_2_0 (x : shape) : result shape :=
  match x with
  | [a; b; c] => Ok [b; c; a]
  | _ => Raise RuntimeError
  end.

(** [F.pad(x, (0, p))]; a negative [p] crops. *)
Definition pad_right (x : shape) (p : Z) : result shape :=
  l <- last_dim x ;;
  if 0 <=? l + p then Ok (set_last x (l + p)) else Raise RuntimeError.

(** [x[..., :n]] *)
Definition slice_last (x : shape) (n : Z) : result shape :=
  l <- last_dim x ;;
  Ok (set_last x (if n <? 0 then Z.max (l + n) 0 else Z.min l n)).

(** Broadcasting of two shapes given last dimension first. *)
Fixpoint broadcast_rev (x y : shape) : result shape :=
  match x, y with
  | [], _ => Ok y
  | _, [] => Ok x
  | a :: x', b :: y' =>
      r <- broadcast_rev x' y' ;;
      if a =? b then Ok (a :: r)
      else if a =? 1 then Ok (b :: r)
      else if b =? 1 then Ok (a :: r)
      else Raise RuntimeError
  end.

(** The shape of [x + y], [x * y], [x / y]. *)
Definition broadcast (x y : shape) : result shape :=
  r <- broadcast_rev (rev x) (rev y) ;; Ok (rev r).

(** [torch.transpose(x, 1, 2)] *)
Definition transpose_1_2 (x : shape) : result shape :=
  match x with
  | a :: b :: c :: rest => Ok (a :: c :: b :: rest)
  | _ => Raise IndexError
  end.

(** [torch.flatten(x, start_dim=1)] *)
Definition flatten_from_1 (x : shape) : result shape :=
  match x with
  | a :: b :: rest => Ok [a; fold_left Z.mul rest b]
  | _ => Raise IndexError
  end.

(** [x.unsqueeze(1)] *)
Definition unsqueeze_1 (x : shape) : result shape :=
  match x with
  | a :: rest => Ok (a :: 1 :: rest)
  | [] => Raise IndexError
  end.

(** [x.mean(dim=1, keepdim=True)] *)
Definition mean_dim_1 (x : shape) : result shape :=
  match x with
  | a :: _ :: rest => Ok (a :: 1 :: rest)
  | _ => Raise IndexError
  end.

(** [x.std(dim=-1, keepdim=True)] *)
Definition std_last (x : shape) : result shape :=
  _ <- last_dim x ;; Ok (set_last x 1).

End Torch.

(** Modelled from the spec: [upsample2] of the module [resample], which is
    not among the sources.  The specification describes it as a polyphase
    doubling of the time axis. *)
Definition upsample2 (x : shape) : result shape :=
  l <- Torch.last_dim x ;; Ok (Torch.set_last x (2 * l)).

(** Modelled from the spec: [downsample2] of the module [resample], which is
    not among the sources.  The specification describes it as the inverse of
    the doubling; a length that is not even is halved keeping the odd
    sample. *)
Definition downsample2 (x : shape) : result shape :=
  l <- Torch.last_dim x ;; Ok (Torch.set_last x ((l + 1) / 2)).

(** ** Modules applied to shapes *)

(** The shape of [layer(x)]. *)
Definition apply_layer (l : Layer) (x : shape) : result shape :=
  match l with
  | Conv1d cin cout k s => Torch.conv1d cin cout k s x
  | ConvTranspose1d cin cout k s => Torch.conv_transpose1d cin cout k s x
  | ReLU => Ok x
  | GLU d => if d <? 0 then Raise IndexError else Torch.glu (Z.to_nat d) x
  | LSTM bi _ h i => Torch.lstm bi h i x
  | Linear fin fout => Torch.linear fin fout x
  end.

(** [nn.Sequential.forward] *)
Definition apply_seq (m : Sequential) (x : shape) : result shape :=
  for_each m apply_layer x.

(** [BLSTM.forward], the returned hidden state left out. *)
Definition BLSTM_forward (m : BLSTM) (x : shape) : result shape :=
  x <- apply_layer m.(blstm_lstm) x ;;
  match m.(blstm_linear) with
  | Some lin => apply_layer lin x
  | None => Ok x
  end.

(** ** Tensors inside the U-Net *)

(** Between the encoder's input and the decoder's output a tensor carries,
    next to its shape, the expression that computes it: which modules were
    applied, what was added to what, what was cut. *)
Inductive expr : Type :=
| Input
| Call (m : Sequential) (x : expr)
| Permute (dims : list Z) (x : expr)
| Recurrent (m : BLSTM) (x : expr)
| Add (x y : expr)
| SliceLast (x : expr) (n : Z).

Record tensor : Type := mkTensor {
  t_shape : shape;
  t_expr : expr
}.

(** [m(x)] for a sequential module [m] *)
Definition call (m : Sequential) (x : tensor) : result tensor :=
  s <- apply_seq m x.(t_shape) ;;
  Ok {| t_shape := s; t_expr := Call m x.(t_expr) |}.

(** [x + y] *)
Definition add (x y : tensor) : result tensor :=
  s <- Torch.broadcast x.(t_shape) y.(t_shape) ;;
  Ok {| t_shape := s; t_expr := Add x.(t_expr) y.(t_expr) |}.

(** [x[..., :n]] *)
Definition slice_last (x : tensor) (n : Z) : result tensor :=
  s <- Torch.slice_last x.(t_shape) n ;;
  Ok {| t_shape := s; t_expr := SliceLast x.(t_expr) n |}.

(** [x.permute(2, 0, 1)] *)
Definition permute_2_0_1 (x : tensor) : result tensor :=
  s <- Torch.permute_2_0_1 x.(t_shape) ;;
  Ok {| t_shape := s; t_expr := Permute [2; 0; 1] x.(t_expr) |}.

(** [x.permute(1, 2, 0)] *)
Definition permute_1_2_0 (x : tensor) : result tensor :=
  s <- Torch.permute_1_2_0 x.(t_shape) ;;
  Ok {| t_shape := s; t_expr := Permute [1; 2; 0] x.(t_expr) |}.

(** [x, _ = m(x)] for the recurrent module *)
Definition recurrent (m : BLSTM) (x : tensor) : result tensor :=
  s <- BLSTM_forward m x.(t_shape) ;;
  Ok {| t_shape := s; t_expr := Recurrent m x.(t_expr) |}.

(** ** The forward pass *)

(** [skips.pop(-1)] *)
Definition pop_last {A : Type} (skips : list A) : result (A * list A) :=
  match rev skips with
  | s :: _ => Ok (s, removelast skips)
  | [] => Raise IndexError
  end.

(** The body of [for encode in self.encoder]. *)
Definition encode_step (encode : Sequential) (st : tensor * list tensor)
  : result (tensor * list tensor) :=
  let '(x, skips) := st in
  x <- call encode x ;;
  Ok (x, skips ++ [x]).

(** The body of [for decode in self.decoder]. *)
Definition decode_step (decode : Sequential) (st : tensor * list tensor)
  : result (tensor * list tensor) :=
  let '(x, skips) := st in
  ' (skip, skips) <- pop_last skips ;;
  n <- Torch.last_dim x.(t_shape) ;;
  skip <- slice_last skip n ;;
  x <- add x skip ;;
  x <- call decode x ;;
  Ok (x, skips).

(** From the start of [forward] to the resampled input of the encoder: the
    input length, the shape of [std] ([None] for the scalar [1]) and [x]. *)
Definition forward_input (self : Demucs) (mix : shape)
  : result (Z * option shape * shape) :=
  mix <- (if Torch.dim mix =? 2 then Torch.unsqueeze_1 mix else Ok mix) ;;
  ' (mix, std) <-
    (if self.(cfg).(normalize) then
       mono <- Torch.mean_dim_1 mix ;;
       std <- Torch.std_last mono ;;
       mix <- Torch.broadcast mix std ;;
       Ok (mix, Some std)
     else Ok (mix, None)) ;;
  length <- Torch.last_dim mix ;;
  let x := mix in
  padded <- valid_length self.(cfg) length ;;
  x <- Torch.pad_right x (padded - length) ;;
  x <- (if self.(cfg).(resample) =? 2 then upsample2 x
        else if self.(cfg).(resample) =? 4 then
          x <- upsample2 x ;; upsample2 x
        else Ok x) ;;
  Ok (length, std, x).

(** The recurrent bottleneck, between the two loops. *)
Definition bottleneck (self : Demucs) (x : tensor) : result tensor :=
  x <- permute_2_0_1 x ;;
  x <- recurrent self.(lstm) x ;;
  permute_1_2_0 x.

(** The encoder loop, the recurrent bottleneck and the decoder loop. *)
Definition forward_unet (self : Demucs) (x : tensor) : result tensor :=
  ' (x, skips) <- for_each self.(encoder) encode_step (x, []) ;;
  x <- bottleneck self x ;;
  ' (x, skips) <- for_each self.(decoder) decode_step (x, skips) ;;
  Ok x.

(** Downsampling and truncation to the input length. *)
Definition forward_output (self : Demucs) (length : Z) (x : shape) : result shape :=
  x <- (if self.(cfg).(resample) =? 2 then downsample2 x
        else if self.(cfg).(resample) =? 4 then
          x <- downsample2 x ;; downsample2 x
        else Ok x) ;;
  Torch.slice_last x length.

(** ** The layout of the flattened head *)

(** The position of an entry in a tensor. *)
Definition index : Type := list Z.

(** After the first head's convolution a tensor carries, next to its shape,
    the position in the convolution's output that each of its entries is
    read from. *)
Record layout : Type := mkLayout {
  lay_shape : shape;
  lay_source : index -> index
}.

Module Layout.

(** The position, last dimension first, of the entry number [p] of a
    tensor whose dimensions, last first, are [rdims], in the row-major order
    that [flatten] and [reshape] follow. *)
Fixpoint unravel_rev (rdims : shape) (p : Z) : index :=
  match rdims with
  | [] => []
  | d :: rest => p mod d :: unravel_rev rest (p / d)
  end.

Definition unravel (dims : shape) (p : Z) : index := rev (unravel_rev (rev dims) p).

(** The output of the convolution itself. *)
Definition of_shape (s : shape) : layout :=
  {| lay_shape := s; lay_source := fun i => i |}.

(** [torch.transpose(x, 1, 2)]: entry [(a, b, c)] is entry [(a, c, b)] of
    [x]. *)
Definition transpose_1_2 (x : layout) : result layout :=
  s <- Torch.transpose_1_2 x.(lay_shape) ;;
  Ok {| lay_shape := s;
        lay_source := fun i =>
          match i with
          | a :: b :: c :: rest => x.(lay_source) (a :: c :: b :: rest)
          | _ => x.(lay_source) i
          end |}.

(** [torch.flatten(x, start_dim=1)]: entry [(a, p)] is the entry number [p]
    of item [a] of [x]. *)
Definition flatten_from_1 (x : layout) : result layout :=
  s <- Torch.flatten_from_1 x.(lay_shape) ;;
  Ok {| lay_shape := s;
        lay_source := fun i =>
          match i with
          | [a; p] => x.(lay_source) (a :: unravel (tl x.(lay_shape)) p)
          | _ => x.(lay_source) i
          end |}.

End Layout.

(** The first output head and its flattening: the value bound to [x] when
    the first adaptation block ends. *)
Definition first_head (self : Demucs) (x : shape) : result layout :=
  x <- apply_layer self.(output_bit) x ;;
  t <- Layout.transpose_1_2 (Layout.of_shape x) ;;
  flattened_x <- Layout.flatten_from_1 t ;;
  Ok flattened_x.

(** The shape of the head's output. *)
Definition head_shape (y : result layout) : result shape :=
  y <- y ;; Ok y.(lay_shape).

(** The second adaptation block, applied to the value [x] is bound to when
    it starts. *)
Definition second_head (self : Demucs) (x : shape) : result shape :=
  x1 <- apply_layer self.(output_bit1) x ;;
  t <- Torch.transpose_1_2 x1 ;;
  flattened_x1 <- Torch.flatten_from_1 t ;;
  x_v2 <- Torch.unsqueeze_1 flattened_x1 ;;
  x_v2 <- apply_layer self.(output_bit2) x_v2 ;;
  t <- Torch.transpose_1_2 x_v2 ;;
  flattened_x2 <- Torch.flatten_from_1 t ;;
  Ok flattened_x2.

(** [forward] up to the end of the first adaptation block. *)
Definition forward_first_head (self : Demucs) (mix : shape) : result layout :=
  ' (length, std, x) <- forward_input self mix ;;
  x <- forward_unet self {| t_shape := x; t_expr := Input |} ;;
  x <- forward_output self length x.(t_shape) ;;
  first_head self x.

(** [Demucs.forward] *)
Definition forward (self : Demucs) (mix : shape) : result shape :=
  ' (length, std, x) <- forward_input self mix ;;
  x <- forward_unet self {| t_shape := x; t_expr := Input |} ;;
  x <- forward_output self length x.(t_shape) ;;
  flattened_x <- first_head self x ;;
  let x := flattened_x.(lay_shape) in
  x_v2 <- second_head self x ;;
  match std with
  | Some std => Torch.broadcast std x
  | None => Ok x
  end.

(** ** The states of the forward pass *)

(** The configurations the forward pass is specified for: a valid
    configuration with at least one stage, one input channel and one output
    channel. *)
Definition forward_config (c : Config) : bool :=
  valid_config c && (1 <=? c.(depth)) && (1 <=? c.(chin)) && (1 <=? c.(chout)).

(** The inputs [forward] accepts: batch x channels x time with the
    configured number of channels, or batch x time when that number is 1. *)
Definition accepted_input (c : Config) (B L : Z) (mix : shape) : Prop :=
  mix = [B; c.(chin); L] \/ (mix = [B; L] /\ c.(chin) = 1).

(** The state of the encoder loop after [i] stages. *)
Definition encoder_state (m : Demucs) (x0 : tensor) (i : nat)
  : result (tensor * list tensor) :=
  for_each (firstn i m.(encoder)) encode_step (x0, []).

(** The state of the decoder loop after [j] stages. *)
Definition decoder_state (m : Demucs) (xb : tensor) (skips : list tensor) (j : nat)
  : result (tensor * list tensor) :=
  for_each (firstn j m.(decoder)) decode_step (xb, skips).

(** The output of encoder stage [i] as an expression of the encoder's
    input. *)
Definition encoder_output (m : Demucs) (i : nat) : expr :=
  fold_left (fun e stage => Call stage e) (firstn (S i) m.(encoder)) Input.

(** The length of the encoder's input for an input of length [L]. *)
Definition encoder_input_length (c : Config) (L : Z) : Z :=
  c.(resample) * valid_length_ceil c L.

(** The shape pushed by encoder stage [i] when the encoder is fed a batch of
    [B] items of length [l0]. *)
Definition skip_shape (c : Config) (B l0 : Z) (i : nat) : shape :=
  [B; width c i; Nat.iter (S i) (Torch.conv_len c.(kernel_size) c.(stride)) l0].

(** The expression of the output of encoder stage [i - 1], the encoder's
    input for [i = 0]. *)
Fixpoint enc_expr (c : Config) (i : nat) : expr :=
  match i with
  | O => Input
  | S i' => Call (enc_stage c i') (enc_expr c i')
  end.

(** The tensor pushed by encoder stage [i]. *)
Definition skip_tensor (c : Config) (B l0 : Z) (i : nat) : tensor :=
  {| t_shape := skip_shape c B l0 i; t_expr := enc_expr c (S i) |}.

(** The expression of the bottleneck's output on [n] stages. *)
Definition bottleneck_expr (c : Config) (n : nat) : expr :=
  Permute [1; 2; 0]
    (Recurrent (blstm_of (enc_in c n) (negb c.(causal)))
       (Permute [2; 0; 1] (enc_expr c n))).

(** The expression of the decoder's feature map after [j] of [n] stages,
    begun at length [y0]. *)
Fixpoint dec_expr (c : Config) (n : nat) (y0 : Z) (j : nat) : expr :=
  match j with
  | O => bottleneck_expr c n
  | S j' =>
      Call (dec_stage c (n - 1 - j'))
        (Add (dec_expr c n y0 j')
           (SliceLast (enc_expr c (S (n - 1 - j')))
              (Nat.iter j' (dec_len c.(kernel_size) c.(stride)) y0)))
  end.

(** The decoder's feature map after [j] of [n] stages. *)
Definition dec_tensor (c : Config) (B : Z) (n : nat) (y0 : Z) (j : nat) : tensor :=
  {| t_shape := [B; match j with O => enc_in c n | S _ => dec_out c (n - j) end;
                 Nat.iter j (dec_len c.(kernel_size) c.(stride)) y0];
     t_expr := dec_expr c n y0 j |}.

(** ** The statements of the specification that the code departs from *)

(** Does the stage end with a ReLU placed after a transposed convolution? *)
Definition relu_after_transposed (stage : Sequential) : bool :=
  match rev stage with
  | ReLU :: ConvTranspose1d _ _ _ _ :: _ => true
  | _ => false
  end.

(** Does the stage end with its transposed convolution? *)
Definition ends_with_transposed (stage : Sequential) : bool :=
  match rev stage with
  | ConvTranspose1d _ _ _ _ :: _ => true
  | _ => false
  end.

(** The placement of the ReLU as the specification words it: every stage but
    the first applied has one, the last applied has none. *)
Definition spec_relu_placement (m : Demucs) : Prop :=
  (forall j stage, nth_error m.(decoder) j = Some stage -> j <> 0%nat ->
                   relu_after_transposed stage = true)
  /\ (forall stage, nth_error m.(decoder) (List.length m.(decoder) - 1) = Some stage ->
                    ends_with_transposed stage = true).

(** The hidden widths of the encoder stages of a built model. *)
Definition encoder_widths (m : Demucs) : list Z :=
  map (fun stage => match stage with
                    | Conv1d _ h _ _ :: _ => h
                    | _ => 0
                    end) m.(encoder).

(** The growth factor as a rational. *)
Definition growth_value (c : Config) : Q :=
  match c.(growth) with
  | Py.Int z => inject_Z z
  | Py.Float x => x
  end.

(** The width of stage [i] as the specification words it. *)
Definition spec_width (c : Config) (i : nat) : Q :=
  Qmin (inject_Z c.(hidden) * growth_value c ^ Z.of_nat i) (inject_Z c.(max_hidden)).

(** ** Configurations used as examples *)

(** A small configuration with one stage and no resampling. *)
Definition one_stage_config : Config :=
  {| chin := 1; chout := 1; hidden := 8; depth := 1; kernel_size := 8;
     stride := 2; causal := false; resample := 1; growth := Py.Int 2;
     max_hidden := 10000; normalize := false; glu := true;
     rescale := 1 # 10; floor := 1 # 1000; n_bits := 5120; kernel_out := 64;
     sample_rate := 16000 |}.

(** The same with an odd kernel and resampling by two. *)
Definition odd_kernel_config : Config :=
  {| chin := 1; chout := 1; hidden := 8; depth := 1; kernel_size := 3;
     stride := 2; causal := false; resample := 2; growth := Py.Int 2;
     max_hidden := 10000; normalize := false; glu := true;
     rescale := 1 # 10; floor := 1 # 1000; n_bits := 5120; kernel_out := 64;
     sample_rate := 16000 |}.

(** No stage, resampling by four. *)
Definition no_stage_config : Config :=
  {| chin := 1; chout := 1; hidden := 8; depth := 0; kernel_size := 8;
     stride := 2; causal := false; resample := 4; growth := Py.Int 2;
     max_hidden := 10000; normalize := false; glu := true;
     rescale := 1 # 10; floor := 1 # 1000; n_bits := 5120; kernel_out := 64;
     sample_rate := 16000 |}.

(** The spec's end-to-end scenario, with the default output head. *)
Definition two_stage_config : Config :=
  {| chin := 1; chout := 1; hidden := 8; depth := 2; kernel_size := 4;
     stride := 2; causal := false; resample := 1; growth := Py.Int 2;
     max_hidden := 10000; normalize := false; glu := true;
     rescale := 1 # 10; floor := 1 # 1000; n_bits := 5120; kernel_out := 64;
     sample_rate := 16000 |}.

(** The defaults with a resample factor that is refused. *)
Definition resample3_config : Config :=
  {| chin := 2; chout := 2; hidden := 64; depth := 5; kernel_size := 8;
     stride := 2; causal := false; resample := 3; growth := Py.Int 2;
     max_hidden := 10000; normalize := false; glu := true;
     rescale := 1 # 10; floor := 1 # 1000; n_bits := 5120; kernel_out := 64;
     sample_rate := 16000 |}.

(** One stage whose initial width exceeds the maximum. *)
Definition narrow_config : Config :=
  {| chin := 2; chout := 2; hidden := 64; depth := 1; kernel_size := 8;
     stride := 2; causal := false; resample := 2; growth := Py.Int 2;
     max_hidden := 32; normalize := false; glu := true;
     rescale := 1 # 10; floor := 1 # 1000; n_bits := 5120; kernel_out := 64;
     sample_rate := 16000 |}.

(** Three stages growing by one half per stage. *)
Definition fractional_config : Config :=
  {| chin := 1; chout := 1; hidden := 3; depth := 3; kernel_size := 8;
     stride := 2; causal := false; resample := 1; growth := Py.Float (3 # 2);
     max_hidden := 10000; normalize := false; glu := true;
     rescale := 1 # 10; floor := 1 # 1000; n_bits := 5120; kernel_out := 64;
     sample_rate := 16000 |}.

(** One stage with no hidden channel. *)
Definition no_hidden_config : Config :=
  {| chin := 2; chout := 2; hidden := 0; depth := 1; kernel_size := 8;
     stride := 2; causal := false; resample := 2; growth := Py.Int 2;
     max_hidden := 10000; normalize := false; glu := true;
     rescale := 1 # 10; floor := 1 # 1000; n_bits := 5120; kernel_out := 64;
     sample_rate := 16000 |}.

(** The defaults with a negative [kernel_out]. *)
Definition negative_kernel_out_config : Config :=
  {| chin := 2; chout := 2; hidden := 64; depth := 5; kernel_size := 8;
     stride := 2; causal := false; resample := 2; growth := Py.Int 2;
     max_hidden := 10000; normalize := false; glu := true;
     rescale := 1 # 10; floor := 1 # 1000; n_bits := 5120; kernel_out := -1;
     sample_rate := 16000 |}.

(** The specification's head of 64 bits read in blocks of 8 samples. *)
Definition small_head_config : Config :=
  {| chin := 1; chout := 1; hidden := 8; depth := 2; kernel_size := 4;
     stride := 2; causal := false; resample := 1; growth := Py.Int 2;
     max_hidden := 10000; normalize := false; glu := true;
     rescale := 1 # 10; floor := 1 # 1000; n_bits := 64; kernel_out := 8;
     sample_rate := 16000 |}.

(** Growth by 1.15 from a width of 100. *)
Definition growth_115_config : Config :=
  {| chin := 1; chout := 1; hidden := 100; depth := 2; kernel_size := 8;
     stride := 2; causal := false; resample := 1; growth := Py.Float (115 # 100);
     max_hidden := 10000; normalize := false; glu := true;
     rescale := 1 # 10; floor := 1 # 1000; n_bits := 5120; kernel_out := 64;
     sample_rate := 16000 |}.

(** * Properties *)

(** ** Rounded quotients of integers below [2^53] *)

Section CeilDiv.

Variables a b : Z.
Hypothesis b_pos : 0 < b.

Lemma ceil_div_upper : a <= b * ceil_div a b.
Proof.
  unfold ceil_div.
  pose proof (Z.mul_div_le (- a) b b_pos). lia.
Qed.

Lemma ceil_div_lower : b * ceil_div a b < a + b.
Proof.
  unfold ceil_div.
  pose proof (Z.mul_succ_div_gt (- a) b b_pos). lia.
Qed.

Lemma ceil_div_unique (c : Z) : a <= b * c < a + b -> ceil_div a b = c.
Proof.
  intros Hc. pose proof ceil_div_upper. pose proof ceil_div_lower. nia.
Qed.

Lemma qceiling_div : Qceiling (inject_Z a / inject_Z b) = ceil_div a b.
Proof.
  unfold Qceiling, ceil_div. f_equal.
  destruct b as [| p | p]; try lia.
  assert (E : (- (inject_Z a / inject_Z (Z.pos p)) == (- a) # p)%Q).
  { unfold Qeq, Qdiv, Qmult, Qinv, Qopp, inject_Z. simpl. lia. }
  rewrite (Qfloor_comp _ _ E). reflexivity.
Qed.

Lemma qceiling_opp_div : Qceiling (- (inject_Z a / inject_Z b)) = - (a / b).
Proof.
  unfold Qceiling. f_equal.
  destruct b as [| p | p]; try lia.
  assert (E : (- - (inject_Z a / inject_Z (Z.pos p)) == a # p)%Q).
  { unfold Qeq, Qdiv, Qmult, Qinv, Qopp, inject_Z. simpl. lia. }
  rewrite (Qfloor_comp _ _ E). reflexivity.
Qed.

End CeilDiv.

Lemma round_half_even_spec (num den : Z) :
  0 < den ->
  - den <= 2 * (Float64.round_half_even num den * den - num) <= den.
Proof.
  intros Hd. unfold Float64.round_half_even.
  pose proof (Z.div_mod num den ltac:(lia)) as E.
  pose proof (Z.mod_pos_bound num den Hd) as Hr.
  destruct (Z.ltb_spec (2 * (num mod den)) den).
  - nia.
  - destruct (Z.ltb_spec den (2 * (num mod den))).
    + nia.
    + destruct (Z.even (num / den)); nia.
Qed.

(** The rounded mantissa lies where the exact scaled quotient does, between
    the multiples of the scale. *)
Lemma round_between_ceil (p q T m n : Z) :
  0 < q -> 0 < T -> q < 2 * T ->
  - q <= 2 * (m * q - p * T) <= q ->
  (n - 1) * q < p <= n * q ->
  T * (n - 1) < m <= T * n.
Proof.
  intros Hq HT HqT Hm Hn.
  assert (H1 : p * T <= n * q * T) by nia.
  assert (H2 : (n - 1) * q * T + T <= p * T) by nia.
  split.
  - destruct (Z_lt_le_dec (T * (n - 1)) m) as [| Hle]; [assumption |].
    assert (m * q <= T * (n - 1) * q) by nia. nia.
  - destruct (Z_le_gt_dec m (T * n)) as [| Hgt]; [assumption |].
    assert ((T * n + 1) * q <= m * q) by nia. nia.
Qed.

Lemma round_between_floor (p q T m n : Z) :
  0 < q -> 0 < T -> q < 2 * T ->
  - q <= 2 * (m * q - p * T) <= q ->
  n * q <= p < (n + 1) * q ->
  T * n <= m < T * (n + 1).
Proof.
  intros Hq HT HqT Hm Hn.
  assert (H1 : n * q * T <= p * T) by nia.
  assert (H2 : p * T + T <= (n + 1) * q * T) by nia.
  split.
  - destruct (Z_le_gt_dec (T * n) m) as [| Hgt]; [assumption |].
    assert (m * q <= (T * n - 1) * q) by nia. nia.
  - destruct (Z_lt_le_dec m (T * (n + 1))) as [| Hle]; [assumption |].
    assert (T * (n + 1) * q <= m * q) by nia. nia.
Qed.

Lemma log2_below_bound (p : Z) :
  0 < p < Float64.exact_bound -> 0 <= Z.log2 p <= 52.
Proof.
  intros [H0 H1]. split; [apply Z.log2_nonneg |].
  assert (Z.log2 p < 53); [| lia].
  apply Z.log2_lt_pow2; [assumption |]. exact H1.
Qed.

(** Below [2^53] the exponent is that of a normal number, not above zero,
    and the scaled quotient has at least 53 bits. *)
Lemma exponent_spec (p q : Z) :
  0 < p < Float64.exact_bound ->
  0 < q < Float64.exact_bound ->
  exists t,
    0 <= t <= 105
    /\ Float64.exponent p q = - t
    /\ q * 4503599627370496 <= p * 2 ^ t.
Proof.
  intros Hp Hq.
  pose proof (log2_below_bound p Hp) as Hlp.
  pose proof (log2_below_bound q Hq) as Hlq.
  destruct (Z.log2_spec p ltac:(lia)) as [Hp1 Hp2].
  destruct (Z.log2_spec q ltac:(lia)) as [Hq1 Hq2].
  unfold Float64.exponent.
  set (lp := Z.log2 p) in *. set (lq := Z.log2 q) in *.
  change 4503599627370496 with (2 ^ 52).
  destruct (Z.leb_spec (q * 2 ^ Z.max 0 (lp - lq)) (p * 2 ^ Z.max 0 (- (lp - lq))))
    as [Hc | Hc].
  - exists (52 - (lp - lq)). split; [lia |]. split; [lia |].
    destruct (Z_le_gt_dec 0 (lp - lq)) as [Hg | Hg].
    + rewrite Z.max_r in Hc by lia. rewrite Z.max_l in Hc by lia.
      rewrite Z.pow_0_r, Z.mul_1_r in Hc.
      replace 52 with ((lp - lq) + (52 - (lp - lq))) at 1 by lia.
      rewrite Z.pow_add_r by lia.
      assert (0 <= 2 ^ (52 - (lp - lq))) by (apply Z.pow_nonneg; lia). nia.
    + rewrite Z.max_l in Hc by lia. rewrite Z.max_r in Hc by lia.
      rewrite Z.pow_0_r, Z.mul_1_r in Hc.
      replace (52 - (lp - lq)) with (- (lp - lq) + 52) by lia.
      rewrite Z.pow_add_r by lia.
      assert (0 <= 2 ^ 52) by (apply Z.pow_nonneg; lia). nia.
  - exists (53 - (lp - lq)). split; [lia |]. split; [lia |].
    replace (Z.succ lq) with (lq + 1) in Hq2 by lia.
    assert (E1 : 2 ^ (lq + 1) * 2 ^ 52 = 2 ^ lp * 2 ^ (53 - (lp - lq))).
    { rewrite <- !Z.pow_add_r by lia. f_equal. lia. }
    assert (0 < 2 ^ 52) by (apply Z.pow_pos_nonneg; lia).
    assert (0 < 2 ^ (53 - (lp - lq))) by (apply Z.pow_pos_nonneg; lia).
    nia.
Qed.

(** The correctly rounded quotient of two integers below [2^53] has the
    ceiling of the exact quotient. *)
Lemma true_div_ceil (a b : Z) :
  0 < b < Float64.exact_bound ->
  - Float64.exact_bound < a < Float64.exact_bound ->
  exists x, Py.true_div a b = Ok x /\ Py.ceil x = ceil_div a b.
Proof.
  intros Hb Ha. unfold Py.true_div, Float64.round.
  destruct (Z.eqb_spec b 0); [lia |].
  destruct (Z.eqb_spec a 0) as [-> | Ha0].
  { exists 0%Q. split; [reflexivity |]. unfold ceil_div, Py.ceil.
    change (- 0) with 0. rewrite Z.div_0_l by lia. reflexivity. }
  rewrite (Z.abs_eq b) by lia.
  set (p := Z.abs a).
  assert (Hp : 0 < p < Float64.exact_bound) by (unfold p; lia).
  destruct (exponent_spec p b Hp Hb) as (t & Ht & He & F1).
  unfold Float64.round_pos. rewrite He.
  rewrite Z.opp_involutive, (Z.max_r 0 t), (Z.max_l 0 (- t)) by lia.
  rewrite Z.pow_0_r, !Z.mul_1_r.
  set (T := 2 ^ t) in *. set (m := Float64.round_half_even (p * T) b).
  assert (HT : 0 < T) by (apply Z.pow_pos_nonneg; lia).
  assert (HT105 : T <= 2 ^ 105) by (apply Z.pow_le_mono_r; lia).
  pose proof (round_half_even_spec (p * T) b ltac:(lia)) as Hm. fold m in Hm.
  assert (HbT : b < 2 * T) by (unfold Float64.exact_bound in *; nia).
  assert (Hbig : 2 ^ 105 * (Float64.exact_bound + 1) < 2 ^ 1024) by reflexivity.
  unfold Float64.value.
  rewrite Z.opp_involutive, (Z.max_r 0 t), (Z.max_l 0 (- t)) by lia.
  rewrite Z.pow_0_r, Z.mul_1_r. fold T.
  destruct (Z.ltb_spec a 0) as [Hneg | Hpos].
  - assert (Hb0 : (b <? 0) = false) by (apply Z.ltb_ge; lia).
    rewrite Hb0. cbn [xorb].
    pose proof (Z.mul_div_le p b ltac:(lia)) as Hn1.
    pose proof (Z.mul_succ_div_gt p b ltac:(lia)) as Hn2.
    pose proof (round_between_floor p b T m (p / b) ltac:(lia) HT HbT Hm ltac:(lia))
      as [Hlo Hhi].
    assert (Hpb : p / b <= p) by (apply Z.div_le_upper_bound; nia).
    destruct (Z.leb_spec (2 ^ 1024) m) as [Hov | _]; [nia |].
    eexists. split; [reflexivity |].
    unfold Py.ceil. rewrite qceiling_opp_div by assumption.
    unfold ceil_div. replace (- a) with p by (unfold p; lia). f_equal.
    symmetry. apply Z.div_unique with (r := m - T * (p / b)); lia.
  - assert (Hb0 : (b <? 0) = false) by (apply Z.ltb_ge; lia).
    rewrite Hb0. cbn [xorb].
    assert (Epa : p = a) by (unfold p; lia).
    pose proof (ceil_div_upper p b ltac:(lia)) as Hn1.
    pose proof (ceil_div_lower p b ltac:(lia)) as Hn2.
    pose proof (round_between_ceil p b T m (ceil_div p b) ltac:(lia) HT HbT Hm ltac:(lia))
      as [Hlo Hhi].
    assert (Hpb : ceil_div p b <= p) by nia.
    destruct (Z.leb_spec (2 ^ 1024) m) as [Hov | _]; [nia |].
    eexists. split; [reflexivity |].
    unfold Py.ceil. rewrite qceiling_div by assumption.
    rewrite <- Epa. apply ceil_div_unique; lia.
Qed.

(** ** Properties of [valid_length] *)

Lemma for_each_pure {A S : Type} (body : A -> S -> result S) (f : S -> S) :
  (forall x s, body x s = Ok (f s)) ->
  forall xs s, for_each xs body s = Ok (Nat.iter (List.length xs) f s).
Proof.
  intros Hbody xs. induction xs as [| x xs IH]; intros s.
  - reflexivity.
  - cbn [for_each List.length]. rewrite Hbody. cbn [bind].
    rewrite IH. now rewrite Nat.iter_succ_r.
Qed.

(** A loop whose body is a pure step as long as an invariant holds. *)
Lemma for_each_invariant {A S : Type} (P : S -> Prop) (body : A -> S -> result S)
    (f : S -> S) :
  (forall x s, P s -> body x s = Ok (f s) /\ P (f s)) ->
  forall xs s, P s -> for_each xs body s = Ok (Nat.iter (List.length xs) f s).
Proof.
  intros Hbody xs. induction xs as [| x xs IH]; intros s Hs.
  - reflexivity.
  - cbn [for_each List.length]. destruct (Hbody x s Hs) as [-> Hfs]. cbn [bind].
    rewrite IH by assumption. now rewrite Nat.iter_succ_r.
Qed.

Lemma range_length (n : Z) : List.length (Py.range n) = Z.to_nat n.
Proof. unfold Py.range. now rewrite length_map, length_seq. Qed.

Lemma valid_config_inv (self : Config) :
  valid_config self = true ->
  (self.(resample) = 1 \/ self.(resample) = 2 \/ self.(resample) = 4)
  /\ 0 <= self.(depth) /\ 1 <= self.(kernel_size) /\ 1 <= self.(stride).
Proof.
  unfold valid_config, Py.mem. cbn [existsb].
  rewrite !andb_true_iff, !orb_true_iff, !Z.eqb_eq, !Z.leb_le. intuition lia.
Qed.

Lemma float_exact_inv (self : Config) (length : Z) :
  float_exact self length = true ->
  0 <= length
  /\ self.(kernel_size) < Float64.exact_bound
  /\ self.(stride) < Float64.exact_bound
  /\ expanded_length self length < Float64.exact_bound.
Proof.
  unfold float_exact. rewrite !andb_true_iff, Z.leb_le, !Z.ltb_lt. tauto.
Qed.

Section StageArithmetic.

Variables k s : Z.
Hypothesis k_pos : 1 <= k.
Hypothesis s_pos : 1 <= s.

Lemma enc_len_ge_1 (l : Z) : 1 <= enc_len k s l.
Proof. unfold enc_len. lia. Qed.

Lemma dec_len_ge_k (l : Z) : 1 <= l -> k <= dec_len k s l.
Proof. unfold dec_len. nia. Qed.

Lemma dec_len_mono (l l' : Z) : l <= l' -> dec_len k s l <= dec_len k s l'.
Proof. unfold dec_len. nia. Qed.

Lemma ceil_div_mono (a a' : Z) : a <= a' -> ceil_div a s <= ceil_div a' s.
Proof.
  intros H. unfold ceil_div.
  assert (- a' / s <= - a / s) by (apply Z.div_le_mono; lia). lia.
Qed.

Lemma enc_len_mono (l l' : Z) : l <= l' -> enc_len k s l <= enc_len k s l'.
Proof.
  intros H. unfold enc_len.
  assert (ceil_div (l - k) s <= ceil_div (l' - k) s) by (apply ceil_div_mono; lia).
  lia.
Qed.

(** A shrinking step never lengthens. *)
Lemma enc_len_le_max (l : Z) : enc_len k s l <= Z.max l 1.
Proof.
  unfold enc_len.
  assert (Hs : 0 < s) by lia.
  pose proof (ceil_div_lower (l - k) s Hs). nia.
Qed.

(** Shrinking and expanding again never loses a sample. *)
Lemma dec_enc_ge (l : Z) : l <= dec_len k s (enc_len k s l).
Proof.
  unfold dec_len, enc_len.
  assert (Hs : 0 < s) by lia.
  pose proof (ceil_div_upper (l - k) s Hs).
  destruct (Z.max_spec (ceil_div (l - k) s + 1) 1) as [[H1 ->] | [H1 ->]].
  - assert (ceil_div (l - k) s < 0) by lia. nia.
  - lia.
Qed.

(** Expanding and shrinking again is the identity on positive lengths. *)
Lemma enc_dec_id (m : Z) : 1 <= m -> enc_len k s (dec_len k s m) = m.
Proof.
  intros Hm. unfold enc_len, dec_len.
  replace (ceil_div ((m - 1) * s + k - k) s) with (m - 1).
  - lia.
  - symmetry. apply ceil_div_unique; lia.
Qed.

Lemma iter_dec_ge_1 (n : nat) (m : Z) : 1 <= m -> 1 <= Nat.iter n (dec_len k s) m.
Proof.
  intros Hm. induction n as [| n IH]; [assumption | rewrite Nat.iter_succ].
  pose proof (dec_len_ge_k _ IH). lia.
Qed.

Lemma iter_enc_mono (n : nat) (l l' : Z) :
  l <= l' -> Nat.iter n (enc_len k s) l <= Nat.iter n (enc_len k s) l'.
Proof.
  intros H. induction n as [| n IH]; [assumption | rewrite Nat.iter_succ].
  now apply enc_len_mono.
Qed.

Lemma iter_dec_mono (n : nat) (l l' : Z) :
  l <= l' -> Nat.iter n (dec_len k s) l <= Nat.iter n (dec_len k s) l'.
Proof.
  intros H. induction n as [| n IH]; [assumption | rewrite Nat.iter_succ].
  now apply dec_len_mono.
Qed.

Lemma iter_dec_enc_ge (n : nat) :
  forall l, l <= Nat.iter n (dec_len k s) (Nat.iter n (enc_len k s) l).
Proof.
  induction n as [| n IH]; intros l; [cbn; lia |].
  rewrite (Nat.iter_succ_r n Z (enc_len k s)), Nat.iter_succ.
  pose proof (IH (enc_len k s l)) as H1.
  apply (dec_len_mono _ _) in H1.
  pose proof (dec_enc_ge l). lia.
Qed.

Lemma iter_enc_dec_id (n : nat) (m : Z) :
  1 <= m -> Nat.iter n (enc_len k s) (Nat.iter n (dec_len k s) m) = m.
Proof.
  intros Hm. induction n as [| n IH]; [reflexivity |].
  rewrite (Nat.iter_succ_r n Z (enc_len k s)), Nat.iter_succ.
  rewrite enc_dec_id by now apply iter_dec_ge_1.
  exact IH.
Qed.

(** The expanded length is a fixed point of shrinking and expanding. *)
Lemma iter_dec_enc_idem (n : nat) (l : Z) :
  let e := Nat.iter n (dec_len k s) (Nat.iter n (enc_len k s) l) in
  Nat.iter n (dec_len k s) (Nat.iter n (enc_len k s) e) = e.
Proof.
  destruct n as [| n]; [reflexivity |].
  cbv zeta. rewrite iter_enc_dec_id; [reflexivity |].
  rewrite Nat.iter_succ. apply enc_len_ge_1.
Qed.

End StageArithmetic.

Lemma expanded_length_ge (self : Config) (length : Z) :
  valid_config self = true ->
  length * self.(resample) <= expanded_length self length.
Proof.
  intros Hv. apply valid_config_inv in Hv. destruct Hv as (Hr & Hd & Hk & Hs).
  unfold expanded_length. now apply iter_dec_enc_ge.
Qed.

Lemma expanded_length_mono (self : Config) (l1 l2 : Z) :
  valid_config self = true -> l1 <= l2 ->
  expanded_length self l1 <= expanded_length self l2.
Proof.
  intros Hv Hle. apply valid_config_inv in Hv. destruct Hv as (Hr & Hd & Hk & Hs).
  unfold expanded_length.
  apply iter_dec_mono; [assumption |].
  apply iter_enc_mono; [assumption |]. nia.
Qed.

Lemma float_exact_mono (self : Config) (l1 l2 : Z) :
  valid_config self = true -> 0 <= l1 <= l2 ->
  float_exact self l2 = true -> float_exact self l1 = true.
Proof.
  intros Hv Hle Hf. pose proof (expanded_length_mono self l1 l2 Hv ltac:(lia)).
  apply float_exact_inv in Hf. unfold float_exact.
  rewrite !andb_true_iff, Z.leb_le, !Z.ltb_lt. lia.
Qed.

(** On a valid configuration and a length in the exact range [valid_length]
    raises nothing and computes the closed form. *)
Lemma valid_length_closed (self : Config) (length : Z) :
  valid_config self = true ->
  float_exact self length = true ->
  valid_length self length = Ok (valid_length_ceil self length).
Proof.
  intros Hv Hf. pose proof (expanded_length_ge self length Hv) as Hge.
  apply valid_config_inv in Hv. destruct Hv as (Hr & Hd & Hk & Hs).
  apply float_exact_inv in Hf. destruct Hf as (HL & Hkb & Hsb & He).
  unfold valid_length, valid_length_ceil.
  rewrite (for_each_invariant (fun l => 0 <= l < Float64.exact_bound)
             (shrink_step self) (enc_len self.(kernel_size) self.(stride))).
  - cbn [bind].
    rewrite (for_each_pure (expand_step self) (dec_len self.(kernel_size) self.(stride)))
      by reflexivity.
    cbn [bind]. rewrite range_length. fold (expanded_length self length).
    destruct (true_div_ceil (expanded_length self length) self.(resample)) as (x & -> & Hx).
    + unfold Float64.exact_bound. lia.
    + nia.
    + cbn [bind]. now rewrite Hx.
  - intros idx l Hl. unfold shrink_step.
    destruct (true_div_ceil (l - self.(kernel_size)) self.(stride)) as (x & -> & Hx);
      [lia | lia |].
    cbn [bind]. rewrite Hx. split; [reflexivity |].
    pose proof (enc_len_ge_1 self.(kernel_size) self.(stride) l).
    pose proof (enc_len_le_max _ _ Hk Hs l).
    unfold enc_len in *. unfold Float64.exact_bound in *. lia.
  - unfold Float64.exact_bound in *. nia.
Qed.

Lemma valid_length_ceil_ge (self : Config) (length : Z) :
  valid_config self = true -> length <= valid_length_ceil self length.
Proof.
  intros Hv. pose proof (expanded_length_ge self length Hv) as He.
  apply valid_config_inv in Hv. destruct Hv as (Hr & Hd & Hk & Hs).
  unfold valid_length_ceil.
  assert (Hpos : 0 < self.(resample)) by lia.
  pose proof (ceil_div_upper (expanded_length self length) _ Hpos). nia.
Qed.

Lemma valid_length_ceil_mono (self : Config) (l1 l2 : Z) :
  valid_config self = true -> l1 <= l2 ->
  valid_length_ceil self l1 <= valid_length_ceil self l2.
Proof.
  intros Hv Hle. pose proof (expanded_length_mono self l1 l2 Hv Hle).
  apply valid_config_inv in Hv. destruct Hv as (Hr & Hd & Hk & Hs).
  unfold valid_length_ceil. apply ceil_div_mono; lia.
Qed.

(** C2, as stated, fails: the quotients are floats, and on the defaults the
    length [2^53 + 13] is padded to [2^53 + 12], which is shorter. *)
Lemma valid_length_below_input :
  valid_config default_config = true
  /\ valid_length default_config 9007199254741005 = Ok 9007199254741004.
Proof. split; [reflexivity | vm_compute; reflexivity]. Qed.

(** C2, amended: on every valid configuration (resample one of 1, 2, 4,
    depth at least 0, kernel size and stride at least 1), for every input
    length that is not negative and whose expanded length, with the kernel
    size and the stride, is below [2^53], [valid_length] returns a length
    that is at least the input length. *)
Theorem valid_length_ge (self : Config) (length : Z) :
  valid_config self = true ->
  float_exact self length = true ->
  exists padded, valid_length self length = Ok padded /\ length <= padded.
Proof.
  intros Hv Hf. exists (valid_length_ceil self length). split.
  - now apply valid_length_closed.
  - now apply valid_length_ceil_ge.
Qed.

Lemma valid_length_ge_witness :
  exists padded, valid_length default_config 1000 = Ok padded /\ 1000 <= padded.
Proof. apply (valid_length_ge default_config 1000); reflexivity. Defined.

(** C5, as stated, fails: with one stage of kernel 8 and stride 2 and no
    resampling, the code pads the length 9 to 10, while the per-stage map
    with the quotient rounded down gives 8. *)
Lemma valid_length_not_floor :
  valid_length one_stage_config 9 = Ok 10
  /\ valid_length_spec one_stage_config 9 = 8
  /\ valid_length one_stage_config 9 <> Ok (valid_length_spec one_stage_config 9).
Proof.
  split; [vm_compute; reflexivity |]. split; [reflexivity |].
  vm_compute. discriminate.
Qed.

(** C5, amended: on a valid configuration, for a length in the range where
    the floating-point quotients are exact (not negative, the expanded
    length, the kernel size and the stride below [2^53]), [valid_length]
    scales the length by the resample factor, applies [depth] times the
    per-stage map [ceil((l - kernel_size) / stride) + 1] floored below at 1,
    then [depth] times the expansion [(l - 1) * stride + kernel_size], and
    divides by the resample factor rounding up. *)
Theorem valid_length_formula (self : Config) (length : Z) :
  valid_config self = true ->
  float_exact self length = true ->
  valid_length self length
  = Ok (ceil_div
          (Nat.iter (Z.to_nat self.(depth))
             (fun l => (l - 1) * self.(stride) + self.(kernel_size))
             (Nat.iter (Z.to_nat self.(depth))
                (fun l => Z.max (ceil_div (l - self.(kernel_size)) self.(stride) + 1) 1)
                (length * self.(resample))))
          self.(resample)).
Proof. intros Hv Hf. now rewrite valid_length_closed. Qed.

Lemma valid_length_formula_witness :
  valid_length default_config 1000
  = Ok (ceil_div
          (Nat.iter 5 (fun l => (l - 1) * 2 + 8)
             (Nat.iter 5 (fun l => Z.max (ceil_div (l - 8) 2 + 1) 1) (1000 * 2)))
          2).
Proof. apply (valid_length_formula default_config 1000); reflexivity. Defined.

(** C8, as stated, fails: with kernel 3, stride 2, one stage and resampling
    by two, the length 1 is padded to 2 and the length 2 is padded to 3. *)
Lemma valid_length_not_idempotent :
  valid_config odd_kernel_config = true
  /\ valid_length odd_kernel_config 1 = Ok 2
  /\ valid_length odd_kernel_config 2 = Ok 3.
Proof. repeat split; vm_compute; reflexivity. Qed.

(** C8, amended: on a valid configuration, for a length in the range where
    the floating-point quotients are exact, whenever the expanded length is
    a multiple of the resample factor (always so when resample is 1),
    [valid_length] maps its own result to itself. *)
Theorem valid_length_idempotent (self : Config) (length : Z) :
  valid_config self = true ->
  float_exact self length = true ->
  expanded_length self length mod self.(resample) = 0 ->
  exists padded,
    valid_length self length = Ok padded /\ valid_length self padded = Ok padded.
Proof.
  intros Hv Hf Hdiv. exists (valid_length_ceil self length).
  rewrite (valid_length_closed self length) by assumption. split; [reflexivity |].
  pose proof (valid_length_ceil_ge self length Hv) as Hge.
  assert (Hex : expanded_length self (valid_length_ceil self length)
                = expanded_length self length).
  { destruct (valid_config_inv self Hv) as (Hr & Hd & Hk & Hs).
    assert (Hpos : 0 < self.(resample)) by lia.
    assert (E : valid_length_ceil self length * self.(resample)
                = expanded_length self length).
    { unfold valid_length_ceil.
      apply Z.mod_divide in Hdiv; [| lia]. destruct Hdiv as [q Hq].
      rewrite Hq. rewrite (ceil_div_unique (q * self.(resample)) _ Hpos q); lia. }
    unfold expanded_length at 1. rewrite E. unfold expanded_length.
    now rewrite iter_dec_enc_idem. }
  assert (Hf' : float_exact self (valid_length_ceil self length) = true).
  { apply float_exact_inv in Hf. unfold float_exact.
    rewrite Hex, !andb_true_iff, Z.leb_le, !Z.ltb_lt. lia. }
  rewrite valid_length_closed by assumption. f_equal.
  unfold valid_length_ceil at 1. now rewrite Hex.
Qed.

Lemma valid_length_idempotent_witness :
  exists padded,
    valid_length default_config 1000 = Ok padded
    /\ valid_length default_config padded = Ok padded.
Proof. apply (valid_length_idempotent default_config 1000); reflexivity. Defined.

(** C10, as stated, fails: not every length has a padded length to compare;
    on the defaults the length [2^1100] makes the first quotient leave the
    range of the floats and [valid_length] raises. *)
Lemma valid_length_overflows :
  valid_config default_config = true
  /\ valid_length default_config 0 = Ok 109
  /\ valid_length default_config (2 ^ 1100) = Raise OverflowError.
Proof. repeat split; vm_compute; reflexivity. Qed.

(** C10, amended: on every valid configuration [valid_length] is monotone
    nondecreasing on the lengths in the range where the floating-point
    quotients are exact. *)
Theorem valid_length_monotone (self : Config) (length1 length2 : Z) :
  valid_config self = true ->
  0 <= length1 <= length2 ->
  float_exact self length2 = true ->
  exists padded1 padded2,
    valid_length self length1 = Ok padded1
    /\ valid_length self length2 = Ok padded2
    /\ padded1 <= padded2.
Proof.
  intros Hv Hle Hf.
  pose proof (float_exact_mono self length1 length2 Hv Hle Hf) as Hf1.
  exists (valid_length_ceil self length1), (valid_length_ceil self length2).
  rewrite !valid_length_closed by assumption. repeat split.
  apply valid_length_ceil_mono; [assumption | lia].
Qed.

Lemma valid_length_monotone_witness :
  exists padded1 padded2,
    valid_length default_config 1000 = Ok padded1
    /\ valid_length default_config 1001 = Ok padded2
    /\ padded1 <= padded2.
Proof.
  apply (valid_length_monotone default_config 1000 1001); [reflexivity | lia | reflexivity].
Defined.

(** ** [valid_length]: errors, short inputs, least padding *)

Lemma range_cons (n : Z) : 1 <= n -> exists rest, Py.range n = 0 :: rest.
Proof.
  intros Hn. unfold Py.range.
  destruct (Z.to_nat n) as [| n'] eqn:E; [lia |].
  cbn [seq map]. eauto.
Qed.

Lemma range_nil (n : Z) : n < 1 -> Py.range n = [].
Proof.
  intros Hn. unfold Py.range.
  replace (Z.to_nat n) with 0%nat by lia. reflexivity.
Qed.

Lemma true_div_raises (a b : Z) (e : error) :
  Py.true_div a b = Raise e ->
  (e = ZeroDivisionError /\ b = 0) \/ (e = OverflowError /\ b <> 0).
Proof.
  unfold Py.true_div. destruct (Z.eqb_spec b 0) as [Hb | Hb].
  - intros [= <-]. now left.
  - destruct (Float64.round a b); [discriminate |]. intros [= <-]. now right.
Qed.

Lemma shrink_loop_raises (self : Config) (e : error) :
  forall xs l,
    for_each xs (shrink_step self) l = Raise e ->
    (e = ZeroDivisionError /\ self.(stride) = 0 /\ xs <> []) \/ e = OverflowError.
Proof.
  induction xs as [| x xs IH]; intros l H; [discriminate |].
  cbn [for_each] in H.
  destruct (shrink_step self x l) as [l' | e'] eqn:E; cbn [bind] in H.
  - destruct (IH _ H) as [(-> & Hs & _) | ->]; [left | now right].
    repeat split; [assumption | discriminate].
  - injection H as ->. unfold shrink_step in E.
    destruct (Py.true_div (l - self.(kernel_size)) self.(stride)) as [q | e''] eqn:Eq;
      cbn [bind] in E; [discriminate |].
    injection E as ->.
    destruct (true_div_raises _ _ _ Eq) as [[-> Hs] | [-> _]]; [left | now right].
    repeat split; [assumption | discriminate].
Qed.

(** X6: the only exceptions of [valid_length] are [ZeroDivisionError] and
    [OverflowError].  It raises [ZeroDivisionError] for every length when the
    stride is zero and there is at least one stage, and when the resample
    factor is zero and there is no stage; and it raises [ZeroDivisionError]
    only with a zero stride and a stage, or with a zero resample factor. *)
Theorem valid_length_raises (self : Config) (length : Z) :
  (self.(stride) = 0 /\ 1 <= self.(depth) ->
   valid_length self length = Raise ZeroDivisionError)
  /\ (self.(resample) = 0 /\ self.(depth) < 1 ->
      valid_length self length = Raise ZeroDivisionError)
  /\ (valid_length self length = Raise ZeroDivisionError ->
      (self.(stride) = 0 /\ 1 <= self.(depth)) \/ self.(resample) = 0)
  /\ (forall e, valid_length self length = Raise e ->
                e = ZeroDivisionError \/ e = OverflowError).
Proof.
  assert (Hall : forall e, valid_length self length = Raise e ->
            (e = ZeroDivisionError
             /\ ((self.(stride) = 0 /\ 1 <= self.(depth)) \/ self.(resample) = 0))
            \/ e = OverflowError).
  { intros e H. unfold valid_length in H.
    destruct (for_each (Py.range self.(depth)) (shrink_step self) _) as [l1 | e1] eqn:E1;
      cbn [bind] in H.
    - rewrite (for_each_pure (expand_step self)
                 (dec_len self.(kernel_size) self.(stride))) in H by reflexivity.
      cbn [bind] in H.
      destruct (Py.true_div _ self.(resample)) as [q | e2] eqn:E2; cbn [bind] in H;
        [discriminate |].
      injection H as ->.
      destruct (true_div_raises _ _ _ E2) as [[-> Hr] | [-> _]]; [left | now right].
      split; [reflexivity | now right].
    - injection H as ->.
      destruct (shrink_loop_raises _ _ _ _ E1) as [(-> & Hs & Hne) | ->];
        [left | now right].
      split; [reflexivity | left]. split; [assumption |].
      destruct (Z_lt_le_dec self.(depth) 1) as [Hd | Hd]; [| assumption].
      now rewrite (range_nil _ Hd) in Hne. }
  repeat split.
  - intros [Hs Hd]. unfold valid_length.
    destruct (range_cons _ Hd) as [rest ->].
    cbn [for_each]. unfold shrink_step at 1, Py.true_div at 1.
    rewrite Hs. reflexivity.
  - intros [Hr Hd]. unfold valid_length.
    rewrite (range_nil _ Hd). cbn [for_each bind].
    unfold Py.true_div. rewrite Hr. reflexivity.
  - intros H. destruct (Hall _ H) as [[_ Hc] | Hc]; [assumption | discriminate].
  - intros e H. destruct (Hall _ H) as [[-> _] | ->]; [now left | now right].
Qed.

(** X2: with no stage at all, [valid_length] pads nothing: on a valid
    configuration of depth 0 every length in the range where the
    floating-point quotient is exact is returned as it is, whatever the
    resample factor. *)
Theorem valid_length_no_stage (self : Config) (length : Z) :
  valid_config self = true ->
  self.(depth) = 0 ->
  float_exact self length = true ->
  valid_length self length = Ok length.
Proof.
  intros Hv Hd0 Hf. rewrite valid_length_closed by assumption. f_equal.
  apply valid_config_inv in Hv. destruct Hv as (Hr & Hd & Hk & Hs).
  unfold valid_length_ceil, expanded_length. rewrite Hd0.
  change (Z.to_nat 0) with 0%nat. unfold Nat.iter. cbn [nat_rect].
  apply ceil_div_unique; lia.
Qed.

Lemma valid_length_no_stage_witness : valid_length no_stage_config 1001 = Ok 1001.
Proof. apply (valid_length_no_stage no_stage_config 1001); reflexivity. Defined.

(** X7: on a valid configuration, within the range where the floating-point
    quotients are exact, [valid_length(L)] is at most every length above [L]
    that [valid_length] leaves as it is: the padding goes to the nearest
    such length. *)
Theorem valid_length_least (self : Config) (length length' : Z) :
  valid_config self = true ->
  0 <= length <= length' ->
  float_exact self length' = true ->
  valid_length self length' = Ok length' ->
  exists padded, valid_length self length = Ok padded /\ padded <= length'.
Proof.
  intros Hv Hle Hf Hfix. exists (valid_length_ceil self length).
  pose proof (float_exact_mono self length length' Hv Hle Hf) as Hf1.
  rewrite valid_length_closed in * by assumption. split; [reflexivity |].
  injection Hfix as Hfx.
  pose proof (valid_length_ceil_mono self length length' Hv ltac:(lia)). lia.
Qed.

Lemma valid_length_least_witness :
  exists padded, valid_length default_config 1000 = Ok padded /\ padded <= 1005.
Proof.
  apply (valid_length_least default_config 1000 1005);
    [reflexivity | lia | reflexivity | vm_compute; reflexivity].
Defined.

Section ShortAndShifted.

Variables k s : Z.
Hypothesis k_pos : 1 <= k.
Hypothesis s_pos : 1 <= s.

Let e := enc_len k s.
Let d := dec_len k s.

Lemma enc_len_short (l : Z) : l <= k -> e l = 1.
Proof.
  intros Hl. unfold e, enc_len.
  assert (ceil_div (l - k) s <= ceil_div 0 s) by (apply ceil_div_mono; lia).
  change (ceil_div 0 s) with (- (0 / s)) in H. rewrite Z.div_0_l in H by lia. lia.
Qed.

Lemma iter_enc_short (n : nat) (l : Z) : l <= k -> Nat.iter (S n) e l = 1.
Proof.
  intros Hl. induction n as [| n IH].
  - now apply enc_len_short.
  - rewrite Nat.iter_succ, IH. apply enc_len_short. lia.
Qed.

Lemma ceil_div_add (a j : Z) : ceil_div (a + j * s) s = ceil_div a s + j.
Proof.
  unfold ceil_div.
  replace (- (a + j * s)) with (- a + (- j) * s) by lia.
  rewrite Z.div_add by lia. lia.
Qed.

Lemma enc_len_shift (l j : Z) : k <= l -> 0 <= j -> e (l + j * s) = e l + j.
Proof.
  intros Hl Hj. unfold e, enc_len.
  replace (l + j * s - k) with ((l - k) + j * s) by lia.
  rewrite ceil_div_add.
  assert (ceil_div 0 s <= ceil_div (l - k) s) by (apply ceil_div_mono; lia).
  change (ceil_div 0 s) with (- (0 / s)) in H. rewrite Z.div_0_l in H by lia. lia.
Qed.

Lemma iter_dec_1_le (n : nat) (l : Z) :
  d (Nat.iter n d 1) <= l -> k <= l /\ Nat.iter n d 1 <= e l.
Proof.
  intros H.
  assert (H1 : 1 <= Nat.iter n d 1) by (apply iter_dec_ge_1; assumption || lia).
  split.
  - assert (k <= d (Nat.iter n d 1)) by (apply dec_len_ge_k; assumption). lia.
  - apply (enc_len_mono k s s_pos) in H. fold e d in H.
    unfold d in H at 1. unfold e in H at 1. rewrite enc_dec_id in H by assumption.
    exact H.
Qed.

(** Past the shortest valid length, [stride^n] more samples in are one more
    step at the bottom. *)
Lemma iter_enc_shift (n : nat) :
  forall l j, Nat.iter n d 1 <= l -> 0 <= j ->
              Nat.iter n e (l + j * s ^ Z.of_nat n) = Nat.iter n e l + j.
Proof.
  induction n as [| n IH]; intros l j Hl Hj.
  - change (Z.of_nat 0) with 0. rewrite Z.pow_0_r. unfold Nat.iter. cbn [nat_rect]. lia.
  - rewrite Nat.iter_succ in Hl. destruct (iter_dec_1_le n l Hl) as [Hk He].
    rewrite !(Nat.iter_succ_r n Z e).
    rewrite Nat2Z.inj_succ, Z.pow_succ_r by lia.
    replace (l + j * (s * s ^ Z.of_nat n)) with (l + (j * s ^ Z.of_nat n) * s) by lia.
    assert (Hp : 0 <= s ^ Z.of_nat n) by (apply Z.pow_nonneg; lia).
    rewrite enc_len_shift by (assumption || nia).
    now apply IH.
Qed.

Lemma iter_dec_shift (n : nat) (m j : Z) :
  Nat.iter n d (m + j) = Nat.iter n d m + j * s ^ Z.of_nat n.
Proof.
  induction n as [| n IH].
  - change (Z.of_nat 0) with 0. rewrite Z.pow_0_r. unfold Nat.iter. cbn [nat_rect]. lia.
  - rewrite !Nat.iter_succ, IH, Nat2Z.inj_succ, Z.pow_succ_r by lia.
    unfold d, dec_len. lia.
Qed.

(** Past the shortest valid length the expansion overshoots by less than
    [stride^n]. *)
Lemma iter_dec_enc_lt (n : nat) (l : Z) :
  Nat.iter n d 1 <= l ->
  Nat.iter n d (Nat.iter n e l) < l + s ^ Z.of_nat n.
Proof.
  intros Hl.
  assert (Hp : 1 <= s ^ Z.of_nat n).
  { pose proof (Z.pow_le_mono_r s 0 (Z.of_nat n)) as Hx.
    rewrite Z.pow_0_r in Hx. apply Hx; lia. }
  set (m := Nat.iter n e l).
  destruct (Z_lt_le_dec m 2) as [Hm | Hm].
  - assert (Hle : Nat.iter n d m <= Nat.iter n d 1).
    { destruct (Z_le_gt_dec m 1); [apply iter_dec_mono; assumption || lia | lia]. }
    lia.
  - destruct (Z_lt_le_dec (Nat.iter n d (m - 1)) l) as [Hlt | Hge].
    + replace m with ((m - 1) + 1) at 1 by lia.
      rewrite iter_dec_shift. lia.
    + apply (iter_enc_mono k s s_pos n) in Hge. unfold d in Hge.
      rewrite iter_enc_dec_id in Hge by (assumption || lia).
      change (m <= m - 1) in Hge. lia.
Qed.

End ShortAndShifted.

Lemma min_valid_length_le (self : Config) (length : Z) :
  valid_config self = true ->
  min_valid_length self <= length ->
  Nat.iter (Z.to_nat self.(depth)) (dec_len self.(kernel_size) self.(stride)) 1
  <= length * self.(resample).
Proof.
  intros Hv Hmin. apply valid_config_inv in Hv. destruct Hv as (Hr & Hd & Hk & Hs).
  unfold min_valid_length in Hmin.
  assert (Hpos : 0 < self.(resample)) by lia.
  pose proof (ceil_div_upper
    (Nat.iter (Z.to_nat self.(depth)) (dec_len self.(kernel_size) self.(stride)) 1)
    _ Hpos).
  nia.
Qed.

Lemma min_valid_length_pos (self : Config) :
  valid_config self = true -> 1 <= min_valid_length self.
Proof.
  intros Hv. apply valid_config_inv in Hv. destruct Hv as (Hr & Hd & Hk & Hs).
  unfold min_valid_length.
  assert (Hpos : 0 < self.(resample)) by lia.
  pose proof (iter_dec_ge_1 _ _ Hk Hs (Z.to_nat self.(depth)) 1 ltac:(lia)) as H1.
  pose proof (ceil_div_upper _ _ Hpos
    : Nat.iter (Z.to_nat self.(depth)) (dec_len self.(kernel_size) self.(stride)) 1
      <= _).
  nia.
Qed.

(** On a valid configuration [total_stride] is the integer quotient of
    [stride^depth] by the resample factor. *)
Lemma total_stride_closed (pow : Z -> Z -> Z -> result Z) (self : Config) :
  valid_config self = true ->
  total_stride pow self = Ok (self.(stride) ^ self.(depth) / self.(resample)).
Proof.
  intros Hv. apply valid_config_inv in Hv. destruct Hv as (Hr & Hd & Hk & Hs).
  unfold total_stride, Py.floor_div.
  destruct (Z.ltb_spec self.(depth) 0); [lia |].
  destruct (Z.eqb_spec self.(resample) 0); [lia | reflexivity].
Qed.

(** X8: with at least one stage, within the range where the floating-point
    quotients are exact, [valid_length] never returns less than the shortest
    valid length, and returns exactly it for every input whose scaled length
    is at most the kernel size, the empty input included. *)
Theorem valid_length_short_input (self : Config) (length : Z) :
  valid_config self = true ->
  1 <= self.(depth) ->
  float_exact self length = true ->
  exists padded,
    valid_length self length = Ok padded
    /\ min_valid_length self <= padded
    /\ (length * self.(resample) <= self.(kernel_size) ->
        padded = min_valid_length self).
Proof.
  intros Hv Hd1 Hf. exists (valid_length_ceil self length).
  split; [now apply valid_length_closed |].
  apply valid_config_inv in Hv. destruct Hv as (Hr & Hd & Hk & Hs).
  unfold valid_length_ceil, min_valid_length, expanded_length.
  destruct (Z.to_nat self.(depth)) as [| n] eqn:En; [lia |].
  split.
  - apply ceil_div_mono; [lia |]. apply iter_dec_mono; [assumption |].
    rewrite Nat.iter_succ. apply enc_len_ge_1.
  - intros Hshort. now rewrite iter_enc_short.
Qed.

Lemma valid_length_short_input_witness :
  exists padded,
    valid_length default_config 0 = Ok padded
    /\ min_valid_length default_config <= padded
    /\ (0 * default_config.(resample) <= default_config.(kernel_size) ->
        padded = min_valid_length default_config).
Proof.
  apply (valid_length_short_input default_config 0);
    [reflexivity | cbn; lia | reflexivity].
Defined.

(** X9: on a valid configuration, for an input at least as long as the
    shortest valid length and in the range where the floating-point quotients
    are exact, the padding is short: scaled by the resample factor it stays
    below [stride^depth + resample - 1], so that without resampling fewer
    than [stride^depth] samples are added. *)
Theorem valid_length_padding_bound (self : Config) (length : Z) :
  valid_config self = true ->
  min_valid_length self <= length ->
  float_exact self length = true ->
  exists padded,
    valid_length self length = Ok padded
    /\ length <= padded
    /\ self.(resample) * (padded - length)
       < self.(stride) ^ self.(depth) + self.(resample) - 1.
Proof.
  intros Hv Hmin Hf. exists (valid_length_ceil self length).
  split; [now apply valid_length_closed |].
  split; [now apply valid_length_ceil_ge |].
  pose proof (min_valid_length_le self length Hv Hmin) as Hl.
  apply valid_config_inv in Hv. destruct Hv as (Hr & Hd & Hk & Hs).
  pose proof (iter_dec_enc_lt _ _ Hk Hs (Z.to_nat self.(depth)) _ Hl) as Hlt.
  rewrite Z2Nat.id in Hlt by assumption.
  unfold valid_length_ceil, expanded_length.
  assert (Hpos : 0 < self.(resample)) by lia.
  pose proof (ceil_div_lower
    (Nat.iter (Z.to_nat self.(depth)) (dec_len self.(kernel_size) self.(stride))
       (Nat.iter (Z.to_nat self.(depth)) (enc_len self.(kernel_size) self.(stride))
          (length * self.(resample)))) _ Hpos).
  nia.
Qed.

Lemma valid_length_padding_bound_witness :
  exists padded,
    valid_length default_config 1000 = Ok padded
    /\ 1000 <= padded
    /\ default_config.(resample) * (padded - 1000)
       < default_config.(stride) ^ default_config.(depth)
         + default_config.(resample) - 1.
Proof.
  apply (valid_length_padding_bound default_config 1000);
    [reflexivity | vm_compute; discriminate | reflexivity].
Defined.

(** X10: on a valid configuration whose resample factor divides
    [stride^depth], valid lengths repeat with period [total_stride]: for an
    input at least as long as the shortest valid length, [total_stride] more
    samples in are [total_stride] more samples out of [valid_length], as long
    as the longer input is in the range where the floating-point quotients
    are exact.  The depth is not negative here, so that the power of a
    negative exponent plays no part. *)
Theorem valid_length_total_stride
    (pow : Z -> Z -> Z -> result Z) (self : Config) (length : Z) :
  valid_config self = true ->
  self.(stride) ^ self.(depth) mod self.(resample) = 0 ->
  min_valid_length self <= length ->
  float_exact self (length + self.(stride) ^ self.(depth) / self.(resample)) = true ->
  exists ts padded,
    total_stride pow self = Ok ts
    /\ valid_length self length = Ok padded
    /\ valid_length self (length + ts) = Ok (padded + ts).
Proof.
  intros Hv Hdiv Hmin Hf.
  exists (self.(stride) ^ self.(depth) / self.(resample)), (valid_length_ceil self length).
  pose proof (min_valid_length_pos self Hv) as Hm1.
  pose proof (min_valid_length_le self length Hv Hmin) as Hl.
  destruct (valid_config_inv self Hv) as (Hr & Hd & Hk & Hs).
  set (T := self.(stride) ^ self.(depth)) in *.
  set (ts := T / self.(resample)) in *.
  assert (HT0 : 0 <= T) by (apply Z.pow_nonneg; lia).
  assert (Hts : 0 <= ts) by (apply Z.div_pos; lia).
  assert (Hf0 : float_exact self length = true).
  { apply (float_exact_mono self length (length + ts)); [assumption | lia | assumption]. }
  rewrite total_stride_closed, !valid_length_closed by assumption.
  split; [reflexivity |]. split; [reflexivity |]. f_equal.
  assert (HT : ts * self.(resample) = T).
  { unfold ts. pose proof (Z_div_mod_eq_full T self.(resample)). lia. }
  unfold valid_length_ceil, expanded_length.
  replace ((length + ts) * self.(resample))
    with (length * self.(resample) + 1 * self.(stride) ^ Z.of_nat (Z.to_nat self.(depth)))
    by (rewrite Z2Nat.id by assumption; fold T; lia).
  rewrite iter_enc_shift by (assumption || lia).
  rewrite iter_dec_shift by assumption.
  rewrite Z2Nat.id by assumption. fold T. rewrite Z.mul_1_l, <- HT.
  apply ceil_div_add. lia.
Qed.

Lemma valid_length_total_stride_witness :
  exists ts padded,
    total_stride (fun _ _ _ => Raise OverflowError) default_config = Ok ts
    /\ valid_length default_config 1000 = Ok padded
    /\ valid_length default_config (1000 + ts) = Ok (padded + ts).
Proof.
  apply (valid_length_total_stride (fun _ _ _ => Raise OverflowError) default_config 1000);
    [reflexivity | reflexivity | vm_compute; discriminate | reflexivity].
Defined.

(** ** The construction builds the closed form *)

Lemma ctor_for_each_app {A S : Type} (body : A -> S -> Ctor S) (xs ys : list A) :
  forall s log,
    ctor_for_each (xs ++ ys) body s log
    = ctor_bind (ctor_for_each xs body s) (ctor_for_each ys body) log.
Proof.
  induction xs as [| x xs IH]; intros s log.
  - reflexivity.
  - cbn [app ctor_for_each]. unfold ctor_bind.
    destruct (body x s log) as [[s' | e] log']; [| reflexivity].
    rewrite IH. reflexivity.
Qed.

Lemma ctor_bind_ok {A B : Type} (c : Ctor A) (k : A -> Ctor B)
    (log : list Layer) (b : B) (log' : list Layer) :
  ctor_bind c k log = (Ok b, log') ->
  exists a log1, c log = (Ok a, log1) /\ k a log1 = (Ok b, log').
Proof.
  unfold ctor_bind. destruct (c log) as [[a | e] log1]; [eauto | discriminate].
Qed.

Lemma ctor_bind_raise {A B : Type} (c : Ctor A) (k : A -> Ctor B)
    (log : list Layer) (e : error) (log' : list Layer) :
  ctor_bind c k log = (Raise e, log') ->
  c log = (Raise e, log')
  \/ exists a log1, c log = (Ok a, log1) /\ k a log1 = (Raise e, log').
Proof.
  unfold ctor_bind. destruct (c log) as [[a | e1] log1]; intros H; [right; eauto | left; now inversion H].
Qed.

Lemma alloc_ok (l : Layer) (log : list Layer) (r : Layer) (log' : list Layer) :
  alloc l log = (Ok r, log') -> r = l /\ log' = log ++ [l] /\ check_sizes l = Ok tt.
Proof.
  unfold alloc. destruct (check_sizes l) as [[] | e]; intros H; inversion H; auto.
Qed.

Lemma alloc_checked (l : Layer) (log : list Layer) :
  check_sizes l = Ok tt -> alloc l log = (Ok l, log ++ [l]).
Proof. unfold alloc. now intros ->. Qed.

Lemma alloc_raise (l : Layer) (log : list Layer) (e : error) (log' : list Layer) :
  alloc l log = (Raise e, log') -> ctor_error e.
Proof.
  unfold alloc, ctor_error. destruct (check_sizes l) as [[] | e1] eqn:E; intros H;
    inversion H; subst.
  destruct l; cbn [check_sizes] in E;
    repeat match type of E with
           | (if ?b then _ else _) = _ => destruct b
           end;
    inversion E; auto.
Qed.

Lemma conv_checked (cin cout k s : Z) :
  check_sizes (Conv1d cin cout k s) = Ok tt -> 0 <= cin /\ 0 <= cout /\ 0 <= k.
Proof.
  cbn [check_sizes].
  destruct (Z.ltb_spec cin 0); [discriminate |].
  destruct (Z.ltb_spec cout 0); [discriminate |].
  destruct (Z.ltb_spec k 0); [discriminate |]. auto.
Qed.

Lemma conv_transpose_checked (cin cout k s : Z) :
  check_sizes (ConvTranspose1d cin cout k s) = Ok tt -> 0 <= cin /\ 0 <= cout /\ 0 <= k.
Proof.
  cbn [check_sizes].
  destruct (Z.ltb_spec cin 0); [discriminate |].
  destruct (Z.ltb_spec cout 0); [discriminate |].
  destruct (Z.ltb_spec k 0); [discriminate |]. auto.
Qed.

Lemma lstm_checked (bi : bool) (layers h i : Z) :
  check_sizes (LSTM bi layers h i) = Ok tt -> 1 <= h /\ 1 <= layers /\ 0 <= i.
Proof.
  cbn [check_sizes].
  destruct (Z.leb_spec h 0); [discriminate |].
  destruct (Z.leb_spec layers 0); [discriminate |].
  destruct (Z.ltb_spec i 0); [discriminate |]. lia.
Qed.

Lemma floor_div_ok (a b q : Z) : Py.floor_div a b = Ok q -> b <> 0 /\ q = a / b.
Proof.
  unfold Py.floor_div. destruct (Z.eqb_spec b 0); [discriminate |].
  intros H. inversion H. auto.
Qed.

Lemma floor_div_raise (a b : Z) (e : error) :
  Py.floor_div a b = Raise e -> e = ZeroDivisionError /\ b = 0.
Proof.
  unfold Py.floor_div. destruct (Z.eqb_spec b 0); [| discriminate].
  intros H. inversion H. auto.
Qed.

Lemma grow_raise (c : Config) (h : Z) (e : error) :
  grow c h = Raise e -> e = OverflowError \/ e = Py.nan_error.
Proof.
  unfold grow, Py.int_mul. destruct c.(growth) as [z | x]; cbn [bind]; [discriminate |].
  destruct (Float64.round h 1) as [hf |]; [| intros H; inversion H; auto].
  destruct (Float64.round (Qnum x) (Z.pos (Qden x))) as [gf |].
  - destruct (Float64.round _ _); cbn [bind]; [discriminate |].
    intros H; inversion H; auto.
  - destruct (h =? 0); cbn [bind]; intros H; inversion H; auto.
Qed.

(** A width that has come down to zero stays there. *)
Lemma grow_zero (c : Config) (w : Z) : grow c 0 = Ok w -> w <= 0.
Proof.
  unfold grow, Py.int_mul. destruct c.(growth) as [z | x]; cbn [bind].
  - intros H. inversion H. lia.
  - change (Float64.round 0 1) with (Some 0%Q).
    destruct (Float64.round (Qnum x) (Z.pos (Qden x))) as [gf |];
      [| cbn; discriminate].
    cbv zeta.
    replace (Qnum (gf * 0)) with 0 by (cbn; lia).
    change (Float64.round 0 (Z.pos (Qden (gf * 0)))) with (Some 0%Q).
    cbn [bind]. intros H. inversion H.
    change (Py.int 0) with 0. lia.
Qed.

Lemma grow_int (c : Config) (g h : Z) :
  c.(growth) = Py.Int g -> grow c h = Ok (Z.min (g * h) c.(max_hidden)).
Proof. unfold grow, Py.int_mul. now intros ->. Qed.

(** One iteration of the construction loop, when it raises nothing. *)
Lemma init_step_ok (c : Config) (a : nat) (log : list Layer)
    (st : LoopState) (log' : list Layer) :
  init_step c (activation_of c) (ch_scale_of c) (Z.of_nat a) (loop_state c a) log
  = (Ok st, log') ->
  st = loop_state c (S a)
  /\ 0 <= width c a
  /\ grow c (width c a) = Ok (width c (S a)).
Proof.
  unfold init_step. cbn [loop_state ls_chin ls_chout ls_hidden ls_encoder ls_decoder].
  intros H.
  apply ctor_bind_ok in H. destruct H as (e1 & l1 & H1 & H).
  apply alloc_ok in H1. destruct H1 as (-> & -> & C1).
  apply ctor_bind_ok in H. destruct H as (e2 & l2 & H2 & H).
  apply alloc_ok in H2. destruct H2 as (-> & -> & C2).
  apply ctor_bind_ok in H. destruct H as (d1 & l3 & H3 & H).
  apply alloc_ok in H3. destruct H3 as (-> & -> & C3).
  apply ctor_bind_ok in H. destruct H as (d2 & l4 & H4 & H).
  apply alloc_ok in H4. destruct H4 as (-> & -> & C4).
  apply ctor_bind_ok in H. destruct H as (w & l5 & H5 & H).
  unfold ctor_lift in H5. inversion H5 as [[Hg Hl]]. subst l5.
  unfold ctor_ret in H. inversion H; subst st log'; clear H.
  apply conv_checked in C1. destruct C1 as (_ & Hw & _).
  split; [| split; [assumption |]].
  - unfold loop_state. cbn [enc_in dec_out width]. rewrite Hg.
    rewrite seq_S, !map_app, rev_app_distr. cbn [map rev app Nat.add].
    unfold enc_stage, dec_stage.
    destruct (0 <? Z.of_nat a); reflexivity.
  - cbn [width]. now rewrite Hg.
Qed.

Lemma init_loop_ok (c : Config) (n : nat) :
  forall a log st log',
    ctor_for_each (map Z.of_nat (seq a n))
      (init_step c (activation_of c) (ch_scale_of c)) (loop_state c a) log
    = (Ok st, log') ->
    st = loop_state c (a + n)
    /\ forall i, (a <= i < a + n)%nat ->
         0 <= width c i /\ grow c (width c i) = Ok (width c (S i)).
Proof.
  induction n as [| n IH]; intros a log st log' H.
  - cbn in H. inversion H. rewrite Nat.add_0_r. split; [reflexivity |]. lia.
  - cbn [seq map ctor_for_each] in H.
    apply ctor_bind_ok in H. destruct H as (s1 & l1 & H1 & H).
    apply init_step_ok in H1. destruct H1 as (-> & Hw & Hg).
    apply IH in H. destruct H as (-> & Hall).
    split; [f_equal; lia |].
    intros i Hi. destruct (Nat.eq_dec i a) as [-> | Hne]; [auto |].
    apply Hall. lia.
Qed.

Lemma BLSTM_init_ok (dim layers : Z) (bi : bool)
    (log : list Layer) (m : BLSTM) (log' : list Layer) :
  BLSTM_init dim layers bi log = (Ok m, log') ->
  m = {| blstm_lstm := LSTM bi layers dim dim;
         blstm_linear := if bi then Some (Linear (2 * dim) dim) else None |}
  /\ check_sizes (LSTM bi layers dim dim) = Ok tt.
Proof.
  unfold BLSTM_init. intros H.
  apply ctor_bind_ok in H. destruct H as (l & l1 & H1 & H).
  apply alloc_ok in H1. destruct H1 as (-> & -> & C1).
  destruct bi.
  - apply ctor_bind_ok in H. destruct H as (lin & l2 & H2 & H).
    apply alloc_ok in H2. destruct H2 as (-> & -> & C2).
    unfold ctor_ret in H. inversion H. auto.
  - unfold ctor_ret in H. inversion H. auto.
Qed.

(** A construction that raises nothing builds the closed form. *)
Lemma init_inv (c : Config) (m : Demucs) (log : list Layer) :
  Demucs_init c [] = (Ok m, log) -> m = arch c /\ built c.
Proof.
  unfold Demucs_init.
  destruct (Py.mem c.(resample) [1; 2; 4]) eqn:Hr; cbn [negb]; [| discriminate].
  fold (activation_of c). fold (ch_scale_of c). unfold Py.range.
  change {| ls_chin := chin c; ls_chout := chout c; ls_hidden := hidden c;
            ls_encoder := []; ls_decoder := [] |} with (loop_state c 0).
  intros H.
  apply ctor_bind_ok in H. destruct H as (factor & l0 & H0 & H).
  unfold ctor_lift in H0. inversion H0 as [[Hf0 Hl0]]. subst l0.
  apply floor_div_ok in Hf0. destruct Hf0 as (Hk & ->).
  apply ctor_bind_ok in H. destruct H as (nb & l1 & H1 & H).
  unfold ctor_lift in H1. inversion H1 as [[Hf1 Hl1]]. subst l1.
  apply floor_div_ok in Hf1. destruct Hf1 as (Hfac & ->).
  apply ctor_bind_ok in H. destruct H as (ob & l2 & H2 & H).
  apply alloc_ok in H2. destruct H2 as (-> & -> & C2).
  apply ctor_bind_ok in H. destruct H as (factor2 & l3 & H3 & H).
  unfold ctor_lift in H3. inversion H3 as [[Hf3 Hl3]]. subst l3.
  apply floor_div_ok in Hf3. destruct Hf3 as (_ & ->).
  apply ctor_bind_ok in H. destruct H as (ob1 & l4 & H4 & H).
  apply alloc_ok in H4. destruct H4 as (-> & -> & C4).
  apply ctor_bind_ok in H. destruct H as (nb2 & l5 & H5 & H).
  unfold ctor_lift in H5. inversion H5 as [[Hf5 Hl5]]. subst l5.
  apply floor_div_ok in Hf5. destruct Hf5 as (_ & ->).
  apply ctor_bind_ok in H. destruct H as (ob2 & l6 & H6 & H).
  apply alloc_ok in H6. destruct H6 as (-> & -> & C6).
  apply ctor_bind_ok in H. destruct H as (st & l7 & H7 & H).
  apply init_loop_ok in H7. destruct H7 as (-> & Hall).
  cbn [Nat.add] in *. cbn [loop_state ls_chin ls_encoder ls_decoder] in H.
  apply ctor_bind_ok in H. destruct H as (rnn & l8 & H8 & H).
  apply BLSTM_init_ok in H8. destruct H8 as (-> & C9).
  unfold ctor_ret in H. inversion H as [[Em El]].
  apply conv_checked in C2. destruct C2 as (Hco & Hnb & Hko).
  apply lstm_checked in C9. destruct C9 as (Hdim & _ & _).
  split; [reflexivity |].
  constructor; try assumption.
  - split; [lia |].
    destruct (Z_le_gt_dec c.(kernel_out) 40960); [assumption |].
    exfalso. apply Hfac. apply Z.div_small. lia.
  - intros i Hi. apply Hall. lia.
Qed.

(** In a built model with at least one stage every stage has a positive
    width: a convolution refuses a negative width, a width of zero stays zero,
    and the recurrent block refuses a width that is not positive. *)
Lemma built_widths_pos (c : Config) :
  built c -> 1 <= c.(depth) ->
  forall i, (i < Z.to_nat c.(depth))%nat -> 1 <= width c i.
Proof.
  intros Hb Hd.
  set (n := Z.to_nat c.(depth)).
  assert (Hn : (1 <= n)%nat) by (unfold n; lia).
  assert (Hlast : 1 <= width c (n - 1)).
  { pose proof (built_lstm c Hb) as H. fold n in H.
    destruct n as [| n']; [lia |]. cbn [enc_in] in H.
    now replace (S n' - 1)%nat with n' by lia. }
  assert (Hdown : forall k i, (i + k = n - 1)%nat -> 1 <= width c i).
  { induction k as [| k IH]; intros i Hi.
    - now replace i with (n - 1)%nat by lia.
    - assert (H1 : 1 <= width c (S i)) by (apply IH; lia).
      destruct (built_widths c Hb i) as [H0 Hg]; [fold n; lia |].
      destruct (Z.eq_dec (width c i) 0) as [Hz | Hz]; [| lia].
      rewrite Hz in Hg. apply grow_zero in Hg. lia. }
  intros i Hi. apply (Hdown (n - 1 - i)%nat). fold n in Hi. lia.
Qed.

(** ** Properties of the construction *)

Lemma mem_124 (r : Z) : Py.mem r [1; 2; 4] = true <-> In r [1; 2; 4].
Proof.
  unfold Py.mem. cbn [existsb In]. rewrite !orb_true_iff, !Z.eqb_eq. intuition lia.
Qed.

Lemma ctor_for_each_raise {A S : Type} (P : error -> Prop) (body : A -> S -> Ctor S) :
  (forall x s log e log', body x s log = (Raise e, log') -> P e) ->
  forall xs s log e log', ctor_for_each xs body s log = (Raise e, log') -> P e.
Proof.
  intros Hbody xs. induction xs as [| x xs IH]; intros s log e log' H.
  - discriminate.
  - cbn [ctor_for_each] in H. apply ctor_bind_raise in H.
    destruct H as [H | (s1 & l1 & _ & H)]; [now apply Hbody in H | now apply IH in H].
Qed.

Lemma init_step_raise (c : Config) (act : Layer) (sc idx : Z) (st : LoopState)
    (log : list Layer) (e : error) (log' : list Layer) :
  init_step c act sc idx st log = (Raise e, log') -> ctor_error e.
Proof.
  unfold init_step. intros H.
  apply ctor_bind_raise in H. destruct H as [H | (e1 & l1 & _ & H)];
    [now apply alloc_raise in H |].
  apply ctor_bind_raise in H. destruct H as [H | (e2 & l2 & _ & H)];
    [now apply alloc_raise in H |].
  apply ctor_bind_raise in H. destruct H as [H | (d1 & l3 & _ & H)];
    [now apply alloc_raise in H |].
  apply ctor_bind_raise in H. destruct H as [H | (d2 & l4 & _ & H)];
    [now apply alloc_raise in H |].
  apply ctor_bind_raise in H. destruct H as [H | (w & l5 & _ & H)]; [| discriminate].
  unfold ctor_lift in H. inversion H as [[Hg Hl]].
  unfold ctor_error. destruct (grow_raise _ _ _ Hg); auto.
Qed.

Lemma BLSTM_init_raise (dim layers : Z) (bi : bool)
    (log : list Layer) (e : error) (log' : list Layer) :
  BLSTM_init dim layers bi log = (Raise e, log') -> ctor_error e.
Proof.
  unfold BLSTM_init. intros H.
  apply ctor_bind_raise in H. destruct H as [H | (l & l1 & _ & H)];
    [now apply alloc_raise in H |].
  destruct bi; [| discriminate].
  apply ctor_bind_raise in H. destruct H as [H | (lin & l2 & _ & H)];
    [now apply alloc_raise in H | discriminate].
Qed.

(** With an accepted resample factor, an exception of the construction is a
    division by zero, raised before anything is allocated, or comes from the
    constructor of a submodule or from the growth of the width. *)
Lemma init_raise (c : Config) (e : error) (log : list Layer) :
  Py.mem c.(resample) [1; 2; 4] = true ->
  Demucs_init c [] = (Raise e, log) ->
  (e = ZeroDivisionError /\ log = []
   /\ (c.(kernel_out) = 0 \/ 40960 / c.(kernel_out) = 0))
  \/ ctor_error e.
Proof.
  intros Hr. unfold Demucs_init. rewrite Hr. cbn [negb]. intros H.
  apply ctor_bind_raise in H. destruct H as [H | (factor & l0 & H0 & H)].
  { unfold ctor_lift in H. inversion H as [[Hf Hl]].
    apply floor_div_raise in Hf. destruct Hf as [-> Hk]. left. auto. }
  unfold ctor_lift in H0. inversion H0 as [[Hf0 Hl0]]. subst l0.
  apply floor_div_ok in Hf0. destruct Hf0 as (Hk & ->).
  apply ctor_bind_raise in H. destruct H as [H | (nb & l1 & H1 & H)].
  { unfold ctor_lift in H. inversion H as [[Hf Hl]].
    apply floor_div_raise in Hf. destruct Hf as [-> Hfac]. left. auto. }
  unfold ctor_lift in H1. inversion H1 as [[Hf1 Hl1]]. subst l1.
  apply floor_div_ok in Hf1. destruct Hf1 as (Hfac & ->).
  right.
  apply ctor_bind_raise in H. destruct H as [H | (ob & l2 & _ & H)];
    [now apply alloc_raise in H |].
  apply ctor_bind_raise in H. destruct H as [H | (factor2 & l3 & H3 & H)].
  { unfold ctor_lift in H. inversion H as [[Hf Hl]].
    apply floor_div_raise in Hf. destruct Hf as [_ Hk0]. contradiction. }
  unfold ctor_lift in H3. inversion H3 as [[Hf3 Hl3]]. subst l3.
  apply floor_div_ok in Hf3. destruct Hf3 as (_ & ->).
  apply ctor_bind_raise in H. destruct H as [H | (ob1 & l4 & _ & H)];
    [now apply alloc_raise in H |].
  apply ctor_bind_raise in H. destruct H as [H | (nb2 & l5 & _ & H)].
  { unfold ctor_lift in H. inversion H as [[Hf Hl]].
    apply floor_div_raise in Hf. destruct Hf as [_ Hf]. contradiction. }
  apply ctor_bind_raise in H. destruct H as [H | (ob2 & l6 & _ & H)];
    [now apply alloc_raise in H |].
  apply ctor_bind_raise in H. destruct H as [H | (st & l7 & _ & H)].
  { revert H. apply ctor_for_each_raise. intros x s l e' l'. apply init_step_raise. }
  apply ctor_bind_raise in H. destruct H as [H | (rnn & l8 & _ & H)];
    [now apply BLSTM_init_raise in H | discriminate].
Qed.

(** C7: construction raises the resample [ValueError] exactly when resample
    is not one of 1, 2, 4, and when it raises it no module owning parameters
    has been allocated; with resample in 1, 2, 4 the check passes, and
    whatever is raised later is another exception. *)
Theorem init_resample_check (c : Config) :
  ((exists log, Demucs_init c [] = (Raise resample_error, log))
   <-> ~ In c.(resample) [1; 2; 4])
  /\ (forall log, Demucs_init c [] = (Raise resample_error, log) -> log = []).
Proof.
  destruct (Py.mem c.(resample) [1; 2; 4]) eqn:Hr.
  - assert (Hno : forall log, Demucs_init c [] <> (Raise resample_error, log)).
    { intros log H.
      destruct (init_raise c _ _ Hr H) as [(E & _) | [E | [E | [E | [E | E]]]]];
        discriminate. }
    split.
    + split.
      * intros [log H]. now apply Hno in H.
      * intros Hn. exfalso. apply Hn. now apply mem_124.
    + intros log H. now apply Hno in H.
  - assert (E : Demucs_init c [] = (Raise resample_error, [])).
    { unfold Demucs_init. rewrite Hr. reflexivity. }
    split.
    + split.
      * intros _ Hin. apply mem_124 in Hin. congruence.
      * intros _. eauto.
    + intros log H. rewrite E in H. now inversion H.
Qed.

Lemma init_resample_check_witness :
  exists log, Demucs_init resample3_config [] = (Raise resample_error, log).
Proof.
  apply (proj2 (proj1 (init_resample_check resample3_config))).
  cbn. lia.
Defined.

(** A width of zero gets through the convolutions and is refused by the
    recurrent block, after seven modules have been allocated; a negative
    [kernel_out] makes the first head's convolution refuse its sizes. *)
Example other_constructor_errors :
  Demucs_init no_hidden_config []
  = (Raise hidden_size_error,
     [Conv1d 2 8 64 64; Conv1d 2 64 64 64; Conv1d 1 8 64 64;
      Conv1d 2 0 8 2; Conv1d 0 0 1 1; Conv1d 0 0 1 1; ConvTranspose1d 0 2 8 2])
  /\ Demucs_init negative_kernel_out_config [] = (Raise RuntimeError, []).
Proof. split; vm_compute; reflexivity. Qed.

Lemma nth_error_rev_map_seq {A : Type} (f : nat -> A) (n j : nat) :
  (j < n)%nat -> nth_error (rev (map f (seq 0 n))) j = Some (f (n - 1 - j)%nat).
Proof.
  intros Hj.
  rewrite nth_error_rev, length_map, length_seq.
  destruct (Nat.ltb_spec j n); [| lia].
  rewrite nth_error_map, nth_error_seq.
  destruct (Nat.ltb_spec (n - S j) n); [| lia].
  cbn. do 2 f_equal. lia.
Qed.

Lemma nth_error_map_seq {A : Type} (f : nat -> A) (n i : nat) :
  (i < n)%nat -> nth_error (map f (seq 0 n)) i = Some (f i).
Proof.
  intros Hi. rewrite nth_error_map, nth_error_seq.
  destruct (Nat.ltb_spec i n); [reflexivity | lia].
Qed.

(** C6, as stated, fails: with two stages the first-applied (innermost)
    decoder stage does end with a ReLU, and the last-applied stage, which is
    not the innermost, has none. *)
Lemma relu_placement_not_as_specified :
  exists m log,
    Demucs_init two_stage_config [] = (Ok m, log)
    /\ nth_error m.(decoder) 0
       = Some [Conv1d 16 32 1 1; GLU 1; ConvTranspose1d 16 8 4 2; ReLU]
    /\ nth_error m.(decoder) 1
       = Some [Conv1d 8 16 1 1; GLU 1; ConvTranspose1d 8 1 4 2]
    /\ ~ spec_relu_placement m.
Proof.
  eexists. eexists. split; [vm_compute; reflexivity |].
  split; [reflexivity |]. split; [reflexivity |].
  intros [H _]. specialize (H 1%nat _ eq_refl). cbn in H.
  assert (1 <> 0)%nat by lia. specialize (H H0). discriminate.
Qed.

(** C6, amended: in every model that the constructor builds, the decoder has
    [depth] stages, and every stage except the last applied (the outermost)
    has a ReLU after its transposed convolution, the first applied (the
    innermost) included when there are at least two stages; the last applied
    stage ends with its transposed convolution. *)
Theorem decoder_relu_placement (c : Config) (m : Demucs) (log : list Layer) :
  Demucs_init c [] = (Ok m, log) ->
  List.length m.(decoder) = Z.to_nat c.(depth)
  /\ forall j stage,
       nth_error m.(decoder) j = Some stage ->
       exists w cout,
         stage
         = [Conv1d w ((if c.(glu) then 2 else 1) * w) 1 1;
            if c.(glu) then GLU 1 else ReLU;
            ConvTranspose1d w cout c.(kernel_size) c.(stride)]
           ++ (if (j + 1 <? Z.to_nat c.(depth))%nat then [ReLU] else []).
Proof.
  intros E. apply init_inv in E. destruct E as [-> _].
  cbn [arch decoder]. split.
  - now rewrite length_rev, length_map, length_seq.
  - intros j stage Hj.
    assert (Hlt : (j < Z.to_nat c.(depth))%nat).
    { assert (Hs : nth_error (rev (map (dec_stage c) (seq 0 (Z.to_nat c.(depth))))) j
                   <> None) by congruence.
      apply nth_error_Some in Hs.
      now rewrite length_rev, length_map, length_seq in Hs. }
    rewrite nth_error_rev_map_seq in Hj by assumption.
    inversion Hj; subst stage; clear Hj.
    unfold dec_stage. fold (ch_scale_of c). fold (activation_of c).
    do 2 eexists. f_equal.
    destruct (Nat.ltb_spec (j + 1) (Z.to_nat c.(depth)));
      destruct (Z.ltb_spec 0 (Z.of_nat (Z.to_nat c.(depth) - 1 - j))); try reflexivity; lia.
Qed.

Lemma decoder_relu_placement_witness :
  exists m log,
    Demucs_init default_config [] = (Ok m, log)
    /\ List.length m.(decoder) = Z.to_nat default_config.(depth)
    /\ forall j stage,
         nth_error m.(decoder) j = Some stage ->
         exists w cout,
           stage
           = [Conv1d w ((if default_config.(glu) then 2 else 1) * w) 1 1;
              if default_config.(glu) then GLU 1 else ReLU;
              ConvTranspose1d w cout default_config.(kernel_size) default_config.(stride)]
             ++ (if (j + 1 <? Z.to_nat default_config.(depth))%nat then [ReLU] else []).
Proof.
  exists (arch default_config), (snd (Demucs_init default_config [])).
  split; [vm_compute; reflexivity |].
  apply (decoder_relu_placement default_config (arch default_config)
           (snd (Demucs_init default_config []))).
  vm_compute. reflexivity.
Defined.

Lemma width_closed (c : Config) (g : Z) (i : nat) :
  c.(growth) = Py.Int g ->
  1 <= g ->
  1 <= c.(hidden) <= c.(max_hidden) ->
  width c i = Z.min (c.(hidden) * g ^ Z.of_nat i) c.(max_hidden).
Proof.
  intros Hg Hg1 Hh. induction i as [| i IH].
  - cbn [width]. change (Z.of_nat 0) with 0. rewrite Z.pow_0_r. lia.
  - cbn [width]. rewrite (grow_int c g _ Hg), IH.
    rewrite Nat2Z.inj_succ, Z.pow_succ_r by lia.
    assert (Hp : 1 <= g ^ Z.of_nat i).
    { pose proof (Z.pow_le_mono_r g 0 (Z.of_nat i)) as Hx.
      rewrite Z.pow_0_r in Hx. apply Hx; lia. }
    set (p := g ^ Z.of_nat i) in *.
    destruct (Z.le_gt_cases (c.(hidden) * p) c.(max_hidden)) as [Hle | Hgt].
    + rewrite (Z.min_l (c.(hidden) * p)) by assumption.
      f_equal. lia.
    + rewrite (Z.min_r (c.(hidden) * p)) by lia.
      rewrite !Z.min_r; nia.
Qed.

(** C9, as stated, fails: an initial width above the maximum is used as it
    is at stage 0, and with a fractional growth the truncation to an integer
    at every stage departs from the power. *)
Lemma widths_not_as_specified :
  (exists m log,
     Demucs_init narrow_config [] = (Ok m, log)
     /\ encoder_widths m = [64]
     /\ (spec_width narrow_config 0 == 32 # 1)%Q)
  /\ (exists m log,
        Demucs_init fractional_config [] = (Ok m, log)
        /\ encoder_widths m = [3; 4; 6]
        /\ (spec_width fractional_config 2 == 27 # 4)%Q).
Proof.
  split; eexists; eexists; (split; [vm_compute; reflexivity |]);
    (split; [reflexivity | vm_compute; reflexivity]).
Qed.

(** C9, amended: in every model that the constructor builds, when the growth
    is an integer [g] at least 1 and the initial width is at least 1 and at
    most the maximum, encoder stage [i] has hidden width
    [min (hidden * g^i) max_hidden], and the decoder stage mirrored with it,
    at position [depth - 1 - i] of the decoder, takes that many channels in,
    which is what the encoder stage gives out. *)
Theorem channel_widths (c : Config) (m : Demucs) (log : list Layer) (g : Z) :
  Demucs_init c [] = (Ok m, log) ->
  c.(growth) = Py.Int g ->
  1 <= g ->
  1 <= c.(hidden) <= c.(max_hidden) ->
  forall i, (i < Z.to_nat c.(depth))%nat ->
    let w := Z.min (c.(hidden) * g ^ Z.of_nat i) c.(max_hidden) in
    let ch_scale := if c.(glu) then 2 else 1 in
    let activation := if c.(glu) then GLU 1 else ReLU in
    exists cin cout tail,
      nth_error m.(encoder) i
      = Some [Conv1d cin w c.(kernel_size) c.(stride); ReLU;
              Conv1d w (w * ch_scale) 1 1; activation]
      /\ nth_error m.(decoder) (Z.to_nat c.(depth) - 1 - i)
         = Some ([Conv1d w (ch_scale * w) 1 1; activation;
                  ConvTranspose1d w cout c.(kernel_size) c.(stride)] ++ tail).
Proof.
  intros E Hg Hg1 Hh. apply init_inv in E. destruct E as [-> _].
  intros i Hi w ch_scale activation.
  cbn [arch encoder decoder].
  rewrite nth_error_map_seq by assumption.
  rewrite nth_error_rev_map_seq by lia.
  replace (Z.to_nat c.(depth) - 1 - (Z.to_nat c.(depth) - 1 - i))%nat with i by lia.
  unfold enc_stage, dec_stage.
  rewrite (width_closed c g i Hg Hg1 Hh). fold w.
  do 3 eexists. split; reflexivity.
Qed.

Lemma channel_widths_witness :
  exists m log,
    Demucs_init default_config [] = (Ok m, log)
    /\ forall i, (i < Z.to_nat default_config.(depth))%nat ->
         let w := Z.min (default_config.(hidden) * 2 ^ Z.of_nat i)
                    default_config.(max_hidden) in
         let ch_scale := if default_config.(glu) then 2 else 1 in
         let activation := if default_config.(glu) then GLU 1 else ReLU in
         exists cin cout tail,
           nth_error m.(encoder) i
           = Some [Conv1d cin w default_config.(kernel_size) default_config.(stride);
                   ReLU; Conv1d w (w * ch_scale) 1 1; activation]
           /\ nth_error m.(decoder) (Z.to_nat default_config.(depth) - 1 - i)
              = Some ([Conv1d w (ch_scale * w) 1 1; activation;
                       ConvTranspose1d w cout default_config.(kernel_size)
                         default_config.(stride)] ++ tail).
Proof.
  exists (arch default_config), (snd (Demucs_init default_config [])).
  split; [vm_compute; reflexivity |].
  apply (channel_widths default_config (arch default_config)
           (snd (Demucs_init default_config [])) 2);
    [vm_compute; reflexivity | reflexivity | lia | cbn; lia].
Defined.

(** ** The recurrent block and the construction *)

(** X1: a [BLSTM] of a positive dimension [dim] with a positive number of
    layers is built, bidirectional or not, and gives a non-empty sequence of
    [dim] features back with the shape it came in with - the linear layer of
    the bidirectional variant undoes the doubling of the features - and
    refuses any other number of features. *)
Theorem BLSTM_keeps_shape (dim layers : Z) (bi : bool) (log : list Layer) :
  1 <= dim ->
  1 <= layers ->
  exists m log',
    BLSTM_init dim layers bi log = (Ok m, log')
    /\ (forall T N, 1 <= T -> 1 <= N -> BLSTM_forward m [T; N; dim] = Ok [T; N; dim])
    /\ (forall T N h, h <> dim -> BLSTM_forward m [T; N; h] = Raise RuntimeError).
Proof.
  intros Hdim Hlayers.
  assert (C1 : check_sizes (LSTM bi layers dim dim) = Ok tt).
  { cbn [check_sizes].
    destruct (Z.leb_spec dim 0); [lia |].
    destruct (Z.leb_spec layers 0); [lia |].
    destruct (Z.ltb_spec dim 0); [lia | reflexivity]. }
  assert (C2 : check_sizes (Linear (2 * dim) dim) = Ok tt).
  { cbn [check_sizes].
    destruct (Z.ltb_spec (2 * dim) 0); [lia |].
    destruct (Z.ltb_spec dim 0); [lia | reflexivity]. }
  unfold BLSTM_init, ctor_bind. rewrite (alloc_checked _ _ C1).
  destruct bi.
  - rewrite (alloc_checked _ _ C2). unfold ctor_ret.
    do 2 eexists. split; [reflexivity |]. split.
    + intros T N HT HN. unfold BLSTM_forward. cbn [blstm_lstm blstm_linear apply_layer].
      unfold Torch.lstm. rewrite Z.eqb_refl, (proj2 (Z.leb_le _ _) HT). cbn [andb bind].
      unfold Torch.linear, Torch.set_last.
      cbn [rev app removelast]. now rewrite Z.eqb_refl.
    + intros T N h Hh. unfold BLSTM_forward. cbn [blstm_lstm apply_layer].
      unfold Torch.lstm. now rewrite (proj2 (Z.eqb_neq _ _) Hh).
  - unfold ctor_ret. do 2 eexists. split; [reflexivity |]. split.
    + intros T N HT HN. unfold BLSTM_forward. cbn [blstm_lstm blstm_linear apply_layer].
      unfold Torch.lstm. rewrite Z.eqb_refl, (proj2 (Z.leb_le _ _) HT). cbn [andb bind].
      now rewrite Z.mul_1_l.
    + intros T N h Hh. unfold BLSTM_forward. cbn [blstm_lstm apply_layer].
      unfold Torch.lstm. now rewrite (proj2 (Z.eqb_neq _ _) Hh).
Qed.

Lemma BLSTM_keeps_shape_witness :
  exists m log',
    BLSTM_init 1024 2 true [] = (Ok m, log')
    /\ (forall T N, 1 <= T -> 1 <= N -> BLSTM_forward m [T; N; 1024] = Ok [T; N; 1024])
    /\ (forall T N h, h <> 1024 -> BLSTM_forward m [T; N; h] = Raise RuntimeError).
Proof. apply (BLSTM_keeps_shape 1024 2 true []); lia. Defined.

(** X3: with an accepted resample factor, construction raises
    [ZeroDivisionError] exactly when [kernel_out] is zero or above 40960 - the
    factor [40960 // kernel_out] or the division by it is then a division by
    zero - and it raises it before any module is allocated. *)
Theorem init_zero_division (c : Config) :
  In c.(resample) [1; 2; 4] ->
  ((exists log, Demucs_init c [] = (Raise ZeroDivisionError, log))
   <-> c.(kernel_out) = 0 \/ 40960 < c.(kernel_out))
  /\ (forall log, Demucs_init c [] = (Raise ZeroDivisionError, log) -> log = []).
Proof.
  intros Hin. apply mem_124 in Hin.
  assert (Hdiv : c.(kernel_out) <> 0 ->
                 (40960 / c.(kernel_out) = 0 <-> 40960 < c.(kernel_out))).
  { intros Hk. rewrite Z.div_small_iff by assumption. lia. }
  assert (Hraise : forall log, Demucs_init c [] = (Raise ZeroDivisionError, log) ->
                     log = [] /\ (c.(kernel_out) = 0 \/ 40960 < c.(kernel_out))).
  { intros log H.
    destruct (init_raise c _ _ Hin H) as [(_ & Hl & Hc) | [E | [E | [E | [E | E]]]]];
      try discriminate.
    split; [assumption |].
    destruct Hc as [Hc | Hc]; [now left |].
    destruct (Z.eq_dec c.(kernel_out) 0); [now left | right; now apply Hdiv]. }
  split; [split |].
  - intros [log H]. now apply Hraise in H.
  - intros Hc. exists []. unfold Demucs_init. rewrite Hin. cbn [negb].
    unfold ctor_bind at 1. unfold ctor_lift at 1, Py.floor_div at 1.
    destruct (Z.eqb_spec c.(kernel_out) 0) as [Hk | Hk]; [reflexivity |].
    destruct Hc as [Hc | Hc]; [contradiction |].
    apply Hdiv in Hc; [| assumption].
    unfold ctor_bind at 1. unfold ctor_lift at 1, Py.floor_div at 1.
    rewrite Hc. reflexivity.
  - intros log H. now apply Hraise in H.
Qed.

Lemma init_zero_division_witness :
  ((exists log, Demucs_init default_config [] = (Raise ZeroDivisionError, log))
   <-> default_config.(kernel_out) = 0 \/ 40960 < default_config.(kernel_out))
  /\ (forall log, Demucs_init default_config [] = (Raise ZeroDivisionError, log) ->
                  log = []).
Proof. apply (init_zero_division default_config). cbn. lia. Defined.

(** X4: in every model that the constructor builds, whatever the growth,
    the stages chain: both lists have [depth] stages; the strided convolution
    of encoder stage [i] takes the width of stage [i - 1] ([chin] at stage 0)
    to the width of stage [i], and the transposed convolution of the mirrored
    decoder stage takes it back ([chout] at stage 0); the recurrent block has
    the width of the last stage. *)
Theorem stages_chain (c : Config) (m : Demucs) (log : list Layer) :
  Demucs_init c [] = (Ok m, log) ->
  let n := Z.to_nat c.(depth) in
  List.length m.(encoder) = n
  /\ List.length m.(decoder) = n
  /\ (forall i, (i < n)%nat ->
        exists cin cout w tail_e head_d tail_d,
          nth_error m.(encoder) i
          = Some (Conv1d cin w c.(kernel_size) c.(stride) :: tail_e)
          /\ nth_error m.(decoder) (n - 1 - i)
             = Some (head_d :: (if c.(glu) then GLU 1 else ReLU)
                            :: ConvTranspose1d w cout c.(kernel_size) c.(stride)
                            :: tail_d)
          /\ head_d = Conv1d w ((if c.(glu) then 2 else 1) * w) 1 1
          /\ (i = 0%nat -> cin = c.(chin) /\ cout = c.(chout))
          /\ (forall i', i = S i' ->
                cin = cout
                /\ exists cin' tail',
                     nth_error m.(encoder) i'
                     = Some (Conv1d cin' cin c.(kernel_size) c.(stride) :: tail')))
  /\ (forall n', n = S n' ->
        exists cin w tail,
          nth_error m.(encoder) n'
          = Some (Conv1d cin w c.(kernel_size) c.(stride) :: tail)
          /\ m.(lstm).(blstm_lstm) = LSTM (negb c.(causal)) 2 w w).
Proof.
  intros E. apply init_inv in E. destruct E as [-> _]. cbv zeta.
  cbn [arch encoder decoder lstm].
  split; [now rewrite length_map, length_seq |].
  split; [now rewrite length_rev, length_map, length_seq |].
  split.
  - intros i Hi.
    exists (enc_in c i), (dec_out c i), (width c i). do 3 eexists.
    rewrite nth_error_map_seq by assumption.
    rewrite nth_error_rev_map_seq by lia.
    replace (Z.to_nat c.(depth) - 1 - (Z.to_nat c.(depth) - 1 - i))%nat with i by lia.
    split; [reflexivity |]. split; [reflexivity |]. split; [reflexivity |].
    split.
    + intros ->. split; reflexivity.
    + intros i' ->. split; [reflexivity |].
      do 2 eexists. rewrite nth_error_map_seq by lia. reflexivity.
  - intros n' En. rewrite En. do 3 eexists.
    rewrite nth_error_map_seq by lia. split; reflexivity.
Qed.

Lemma stages_chain_witness :
  exists m log,
    let n := Z.to_nat default_config.(depth) in
    Demucs_init default_config [] = (Ok m, log)
    /\ List.length m.(encoder) = n
    /\ List.length m.(decoder) = n
    /\ (forall i, (i < n)%nat ->
          exists cin cout w tail_e head_d tail_d,
            nth_error m.(encoder) i
            = Some (Conv1d cin w default_config.(kernel_size) default_config.(stride)
                      :: tail_e)
            /\ nth_error m.(decoder) (n - 1 - i)
               = Some (head_d :: (if default_config.(glu) then GLU 1 else ReLU)
                              :: ConvTranspose1d w cout default_config.(kernel_size)
                                   default_config.(stride)
                              :: tail_d)
            /\ head_d = Conv1d w ((if default_config.(glu) then 2 else 1) * w) 1 1
            /\ (i = 0%nat -> cin = default_config.(chin) /\ cout = default_config.(chout))
            /\ (forall i', i = S i' ->
                  cin = cout
                  /\ exists cin' tail',
                       nth_error m.(encoder) i'
                       = Some (Conv1d cin' cin default_config.(kernel_size)
                                 default_config.(stride) :: tail')))
    /\ (forall n', n = S n' ->
          exists cin w tail,
            nth_error m.(encoder) n'
            = Some (Conv1d cin w default_config.(kernel_size) default_config.(stride)
                      :: tail)
            /\ m.(lstm).(blstm_lstm) = LSTM (negb default_config.(causal)) 2 w w).
Proof.
  exists (arch default_config), (snd (Demucs_init default_config [])).
  cbv zeta. split; [vm_compute; reflexivity |].
  apply (stages_chain default_config (arch default_config)
           (snd (Demucs_init default_config []))).
  vm_compute. reflexivity.
Defined.

Lemma grow_le (c : Config) (h w : Z) : grow c h = Ok w -> w <= c.(max_hidden).
Proof.
  unfold grow. destruct (Py.int_mul c.(growth) h); cbn [bind]; [| discriminate].
  intros H. inversion H. lia.
Qed.

(** X5: in every model that the constructor builds, whatever the growth,
    every stage after the first has a hidden width of at most
    [max_hidden]. *)
Theorem widths_capped (c : Config) (m : Demucs) (log : list Layer) :
  Demucs_init c [] = (Ok m, log) ->
  forall i w, nth_error (encoder_widths m) (S i) = Some w -> w <= c.(max_hidden).
Proof.
  intros E. apply init_inv in E. destruct E as [-> Hb].
  intros i w Hw. unfold encoder_widths in Hw. cbn [arch encoder] in Hw.
  rewrite map_map in Hw.
  assert (Hlt : (S i < Z.to_nat c.(depth))%nat).
  { assert (Hs : nth_error
                   (map (fun x => match enc_stage c x with
                                  | Conv1d _ h _ _ :: _ => h
                                  | _ => 0
                                  end) (seq 0 (Z.to_nat c.(depth)))) (S i) <> None)
      by congruence.
    apply nth_error_Some in Hs. now rewrite length_map, length_seq in Hs. }
  rewrite nth_error_map_seq in Hw by assumption.
  cbn [enc_stage] in Hw. inversion Hw.
  destruct (built_widths c Hb i) as [_ Hg]; [lia |].
  now apply grow_le in Hg.
Qed.

Lemma widths_capped_witness :
  exists m log,
    Demucs_init default_config [] = (Ok m, log)
    /\ forall i w, nth_error (encoder_widths m) (S i) = Some w ->
                   w <= default_config.(max_hidden).
Proof.
  exists (arch default_config), (snd (Demucs_init default_config [])).
  split; [vm_compute; reflexivity |].
  apply (widths_capped default_config (arch default_config)
           (snd (Demucs_init default_config []))).
  vm_compute. reflexivity.
Defined.

(** ** Lengths through the strided convolutions *)

Section ConvArithmetic.

Variables k s : Z.
Hypothesis k_pos : 1 <= k.
Hypothesis s_pos : 1 <= s.

Let f := Torch.conv_len k s.
Let d := dec_len k s.

Lemma conv_len_ge_1 (l : Z) : k <= l -> 1 <= f l.
Proof.
  intros H. unfold f, Torch.conv_len.
  assert (0 <= (l - k) / s) by (apply Z.div_pos; lia). lia.
Qed.

Lemma conv_len_mono (l l' : Z) : l <= l' -> f l <= f l'.
Proof.
  intros H. unfold f, Torch.conv_len.
  assert ((l - k) / s <= (l' - k) / s) by (apply Z.div_le_mono; lia). lia.
Qed.

Lemma conv_dec_id (z : Z) : f (d z) = z.
Proof.
  unfold f, d, Torch.conv_len, dec_len.
  replace ((z - 1) * s + k - k) with ((z - 1) * s) by lia.
  rewrite Z.div_mul by lia. lia.
Qed.

(** A transposed convolution never gives back more than the convolution
    consumed. *)
Lemma dec_conv_le (l : Z) : d (f l) <= l.
Proof.
  unfold f, d, Torch.conv_len, dec_len.
  assert (Hs : 0 < s) by lia.
  pose proof (Z.mul_div_le (l - k) s Hs). lia.
Qed.

Lemma dec_ge_self (z : Z) : 1 <= z -> z <= d z.
Proof. unfold d, dec_len. nia. Qed.

Lemma iter_dec_ge_self (n : nat) (z : Z) : 1 <= z -> z <= Nat.iter n d z.
Proof.
  intros Hz. induction n as [| n IH]; [cbn; lia | rewrite Nat.iter_succ].
  pose proof (dec_ge_self (Nat.iter n d z)). lia.
Qed.

Lemma iter_conv_mono (n : nat) (l l' : Z) :
  l <= l' -> Nat.iter n f l <= Nat.iter n f l'.
Proof.
  intros H. induction n as [| n IH]; [assumption | rewrite !Nat.iter_succ].
  now apply conv_len_mono.
Qed.

Lemma iter_conv_dec_id (n : nat) (z : Z) : Nat.iter n f (Nat.iter n d z) = z.
Proof.
  induction n as [| n IH]; [reflexivity |].
  rewrite (Nat.iter_succ_r n Z f), Nat.iter_succ, conv_dec_id. exact IH.
Qed.

(** An input at least as long as [n] expansions of [z] still has length at
    least [z] after [n] convolutions. *)
Lemma iter_conv_ge (n : nat) (z l : Z) : Nat.iter n d z <= l -> z <= Nat.iter n f l.
Proof.
  intros H. apply (iter_conv_mono n) in H. now rewrite iter_conv_dec_id in H.
Qed.

Lemma iter_dec_conv_le (n : nat) :
  forall z, Nat.iter n d (Nat.iter n f z) <= z.
Proof.
  induction n as [| n IH]; intros z; [cbn; lia |].
  rewrite (Nat.iter_succ_r n Z f), Nat.iter_succ.
  pose proof (IH (f z)) as H1.
  apply (dec_len_mono k s s_pos) in H1. fold d in H1.
  pose proof (dec_conv_le z). lia.
Qed.

Lemma iter_dec_1_ge_k (n : nat) : k <= Nat.iter (S n) d 1.
Proof.
  rewrite Nat.iter_succ. apply dec_len_ge_k; try assumption.
  apply iter_dec_ge_1; assumption || lia.
Qed.

End ConvArithmetic.

(** ** Shapes through the layers *)

Lemma for_each_app {A S : Type} (body : A -> S -> result S) (xs ys : list A) :
  forall s, for_each (xs ++ ys) body s = bind (for_each xs body s) (for_each ys body).
Proof.
  induction xs as [| x xs IH]; intros s; [reflexivity |].
  cbn [app for_each]. destruct (body x s) as [s' | e]; cbn [bind]; [apply IH | reflexivity].
Qed.

Lemma bind_ok {A B : Type} (c : result A) (a : A) (k : A -> result B) :
  c = Ok a -> bind c k = k a.
Proof. now intros ->. Qed.

(** Run the first computation of a sequence with a lemma about it. *)
Ltac bind_step lem :=
  etransitivity; [apply bind_ok; apply lem |]; cbv beta iota.

Lemma conv1d_ok (cin cout k s n l : Z) :
  1 <= cin -> 1 <= cout -> 1 <= k <= l -> 0 < s ->
  Torch.conv1d cin cout k s [n; cin; l] = Ok [n; cout; Torch.conv_len k s l].
Proof.
  intros Hi Ho Hk Hs. unfold Torch.conv1d, Torch.conv_accepts.
  rewrite Z.eqb_refl.
  destruct (Z.leb_spec 1 cin); [| lia].
  destruct (Z.leb_spec 1 cout); [| lia].
  destruct (Z.leb_spec 1 k); [| lia].
  destruct (Z.leb_spec k l); [| lia].
  destruct (Z.ltb_spec 0 s); [| lia].
  reflexivity.
Qed.

Lemma conv_transpose1d_ok (cin cout k s n l : Z) :
  1 <= cin -> 1 <= cout -> 1 <= k -> 1 <= l -> 0 < s ->
  Torch.conv_transpose1d cin cout k s [n; cin; l] = Ok [n; cout; dec_len k s l].
Proof.
  intros Hi Ho Hk Hl Hs. unfold Torch.conv_transpose1d, Torch.conv_transpose_accepts.
  rewrite Z.eqb_refl.
  destruct (Z.leb_spec 1 cin); [| lia].
  destruct (Z.leb_spec 1 cout); [| lia].
  destruct (Z.leb_spec 1 k); [| lia].
  destruct (Z.leb_spec 1 l); [| lia].
  destruct (Z.ltb_spec 0 s); [| lia].
  reflexivity.
Qed.

Lemma conv_len_pointwise (l : Z) : Torch.conv_len 1 1 l = l.
Proof. unfold Torch.conv_len. rewrite Z.div_1_r. lia. Qed.

Lemma ch_scale_pos (c : Config) : 1 <= ch_scale_of c <= 2.
Proof. unfold ch_scale_of. destruct c.(glu); lia. Qed.

(** The activation undoes the channel expansion of the pointwise
    convolution before it. *)
Lemma activation_ok (c : Config) (n w l : Z) :
  apply_layer (activation_of c) [n; ch_scale_of c * w; l] = Ok [n; w; l].
Proof.
  unfold activation_of, ch_scale_of. destruct c.(glu).
  - cbn [apply_layer]. change (1 <? 0) with false. cbv iota.
    change (Z.to_nat 1) with 1%nat. cbn [Torch.glu bind].
    rewrite Z.mul_comm, Z_mod_mult, Z.div_mul by lia. reflexivity.
  - cbn [apply_layer]. now rewrite Z.mul_1_l.
Qed.

Lemma broadcast_rev_same (x : shape) : Torch.broadcast_rev x x = Ok x.
Proof.
  induction x as [| a x IH]; [reflexivity |].
  cbn [Torch.broadcast_rev]. rewrite IH. cbn [bind]. now rewrite Z.eqb_refl.
Qed.

Lemma broadcast_same (x : shape) : Torch.broadcast x x = Ok x.
Proof.
  unfold Torch.broadcast. rewrite broadcast_rev_same. cbn [bind].
  now rewrite rev_involutive.
Qed.

(** Dividing by the per-item standard deviation keeps the shape. *)
Lemma broadcast_keepdim (n ch l : Z) :
  Torch.broadcast [n; ch; l] [n; 1; 1] = Ok [n; ch; l].
Proof.
  unfold Torch.broadcast. cbn [rev app Torch.broadcast_rev bind].
  rewrite Z.eqb_refl. cbn [bind].
  change (1 =? 1) with true.
  destruct (ch =? 1); cbn [bind]; destruct (l =? 1); reflexivity.
Qed.

Lemma slice_last_ok (n ch l a : Z) :
  0 <= l <= a -> Torch.slice_last [n; ch; a] l = Ok [n; ch; l].
Proof.
  intros H. unfold Torch.slice_last, Torch.last_dim, Torch.set_last.
  cbn [rev app bind removelast].
  destruct (Z.ltb_spec l 0); [lia |]. now rewrite Z.min_r by lia.
Qed.

Lemma firstn_app_exact {A : Type} (n : nat) (xs ys : list A) :
  List.length xs = n -> firstn n (xs ++ ys) = xs.
Proof.
  intros <-. rewrite firstn_app, firstn_all, Nat.sub_diag, firstn_O.
  apply app_nil_r.
Qed.

Lemma firstn_map_seq {A : Type} (g : nat -> A) (j n : nat) :
  (j <= n)%nat -> firstn j (map g (seq 0 n)) = map g (seq 0 j).
Proof.
  intros Hj. replace n with (j + (n - j))%nat by lia.
  rewrite seq_app, map_app. apply firstn_app_exact.
  now rewrite length_map, length_seq.
Qed.

Lemma firstn_snoc {A : Type} (l : list A) :
  forall j x, nth_error l j = Some x -> firstn (S j) l = firstn j l ++ [x].
Proof.
  induction l as [| a l IH]; intros [| j] x H; cbn in H; try discriminate.
  - inversion H. reflexivity.
  - cbn [firstn app]. f_equal. now apply IH.
Qed.

Lemma pop_last_snoc {A : Type} (base : list A) (x : A) :
  pop_last (base ++ [x]) = Ok (x, base).
Proof.
  unfold pop_last. rewrite rev_app_distr. cbn [rev app].
  now rewrite removelast_last.
Qed.

Section Stages.

Variable c : Config.
Variable B : Z.
Variable n : nat.
Hypothesis k_pos : 1 <= c.(kernel_size).
Hypothesis s_pos : 1 <= c.(stride).
Hypothesis chin_pos : 1 <= c.(chin).
Hypothesis chout_pos : 1 <= c.(chout).
Hypothesis width_pos : forall i, (i < n)%nat -> 1 <= width c i.

Let k := c.(kernel_size).
Let s := c.(stride).
Let f := Torch.conv_len k s.
Let d := dec_len k s.

Lemma enc_in_pos (i : nat) : (i <= n)%nat -> 1 <= enc_in c i.
Proof.
  intros Hi. destruct i as [| i]; [exact chin_pos |].
  cbn [enc_in]. apply width_pos. lia.
Qed.

Lemma dec_out_pos (i : nat) : (i <= n)%nat -> 1 <= dec_out c i.
Proof.
  intros Hi. destruct i as [| i]; [exact chout_pos |].
  cbn [dec_out]. apply width_pos. lia.
Qed.

Lemma enc_stage_apply (i : nat) (l : Z) :
  (i < n)%nat -> k <= l ->
  apply_seq (enc_stage c i) [B; enc_in c i; l] = Ok [B; width c i; f l].
Proof.
  intros Hi Hl. unfold apply_seq, enc_stage. cbn [for_each apply_layer].
  pose proof (width_pos i Hi) as Hw.
  pose proof (enc_in_pos i ltac:(lia)) as He.
  pose proof (ch_scale_pos c) as Hsc.
  rewrite conv1d_ok by (try assumption; fold k s; lia).
  cbn [bind for_each apply_layer].
  assert (H1 : 1 <= f l) by (apply conv_len_ge_1; assumption).
  assert (H2 : 1 <= width c i * ch_scale_of c) by nia.
  fold f. rewrite conv1d_ok; [| assumption | assumption | split; [lia | exact H1] | lia].
  cbn [bind].
  rewrite conv_len_pointwise, (Z.mul_comm (width c i)), activation_ok.
  reflexivity.
Qed.

Lemma dec_stage_apply (i : nat) (y : Z) :
  (i < n)%nat -> 1 <= y ->
  apply_seq (dec_stage c i) [B; width c i; y] = Ok [B; dec_out c i; d y].
Proof.
  intros Hi Hy. unfold apply_seq, dec_stage.
  pose proof (width_pos i Hi) as Hw.
  pose proof (dec_out_pos i ltac:(lia)) as Ho.
  pose proof (ch_scale_pos c) as Hsc.
  set (tail := if 0 <? Z.of_nat i then [ReLU] else []).
  cbn [app for_each apply_layer].
  assert (H2 : 1 <= ch_scale_of c * width c i) by nia.
  rewrite conv1d_ok; [| assumption | assumption | split; [lia | exact Hy] | lia].
  cbn [bind].
  rewrite conv_len_pointwise, activation_ok. cbn [bind].
  rewrite conv_transpose1d_ok; [| assumption | assumption | exact k_pos | exact Hy |
                                 apply Z.lt_le_trans with 1; [lia | exact s_pos]].
  cbn [bind].
  subst tail. destruct (0 <? Z.of_nat i); reflexivity.
Qed.

(** The encoder loop: every stage pushes its output. *)
Lemma encode_loop (p : nat) :
  forall l0 base,
    (p <= n)%nat ->
    Nat.iter p d 1 <= l0 ->
    for_each (map (enc_stage c) (seq 0 p)) encode_step
      ({| t_shape := [B; enc_in c 0; l0]; t_expr := Input |}, base)
    = Ok ({| t_shape := [B; enc_in c p; Nat.iter p f l0]; t_expr := enc_expr c p |},
          base ++ map (skip_tensor c B l0) (seq 0 p)).
Proof.
  induction p as [| p IH]; intros l0 base Hp Hl.
  - cbn. now rewrite app_nil_r.
  - assert (H1 : 1 <= Nat.iter p d 1)
      by (apply iter_dec_ge_1; fold k s; lia).
    assert (Hn : Nat.iter p d 1 <= l0).
    { rewrite Nat.iter_succ in Hl.
      assert (Nat.iter p d 1 <= d (Nat.iter p d 1))
        by (apply dec_ge_self; assumption).
      lia. }
    rewrite seq_S, map_app, for_each_app, (IH l0 base ltac:(lia) Hn). cbn [bind].
    cbn [Nat.add map for_each encode_step].
    assert (Hk : k <= Nat.iter p f l0).
    { apply iter_conv_ge; try assumption.
      assert (E : Nat.iter p d k = Nat.iter (S p) d 1).
      { rewrite Nat.iter_succ_r. reflexivity. }
      change (Nat.iter p d k <= l0). rewrite E. exact Hl. }
    unfold call. cbn [t_shape t_expr].
    rewrite enc_stage_apply by (assumption || lia). cbn [bind for_each].
    rewrite map_app, app_assoc. reflexivity.
Qed.

(** One decoder stage: the popped skip is cut to the length of [x] and
    added to it, the sum has the shape of [x], and the stage expands it. *)
Lemma decode_step_ok (i : nat) (y a : Z) (e es : expr) (base : list tensor) :
  (i < n)%nat -> 1 <= y -> y <= a ->
  decode_step (dec_stage c i)
    ({| t_shape := [B; width c i; y]; t_expr := e |},
     base ++ [{| t_shape := [B; width c i; a]; t_expr := es |}])
  = Ok ({| t_shape := [B; dec_out c i; d y];
           t_expr := Call (dec_stage c i) (Add e (SliceLast es y)) |}, base).
Proof.
  intros Hi Hy Ha. unfold decode_step.
  rewrite pop_last_snoc. cbn [bind t_shape].
  unfold Torch.last_dim at 1. cbn [rev app bind].
  unfold slice_last. cbn [t_shape t_expr].
  rewrite slice_last_ok by lia. cbn [bind].
  unfold add. cbn [t_shape t_expr]. rewrite broadcast_same. cbn [bind].
  unfold call. cbn [t_shape t_expr].
  rewrite dec_stage_apply by assumption. reflexivity.
Qed.

End Stages.

(** The bottleneck keeps the shape. *)
Lemma bottleneck_ok (c : Config) (B y : Z) (e : expr) :
  1 <= y ->
  let n := Z.to_nat c.(depth) in
  bottleneck (arch c) {| t_shape := [B; enc_in c n; y]; t_expr := e |}
  = Ok {| t_shape := [B; enc_in c n; y];
          t_expr := Permute [1; 2; 0]
                      (Recurrent (blstm_of (enc_in c n) (negb c.(causal)))
                         (Permute [2; 0; 1] e)) |}.
Proof.
  intros Hy n. unfold bottleneck, permute_2_0_1.
  cbn [t_shape t_expr Torch.permute_2_0_1 bind arch lstm].
  fold n. unfold recurrent. cbn [t_shape t_expr].
  unfold BLSTM_forward, blstm_of. cbn [blstm_lstm blstm_linear apply_layer].
  unfold Torch.lstm. rewrite Z.eqb_refl, (proj2 (Z.leb_le _ _) Hy). cbn [andb bind].
  destruct (negb c.(causal)).
  - cbn [apply_layer]. unfold Torch.linear, Torch.set_last.
    cbn [rev app bind removelast]. rewrite Z.eqb_refl. reflexivity.
  - rewrite Z.mul_1_l. reflexivity.
Qed.

(** ** The forward pass *)

Lemma forward_config_inv (c : Config) :
  forward_config c = true ->
  valid_config c = true /\ 1 <= c.(depth) /\ 1 <= c.(chin) /\ 1 <= c.(chout).
Proof.
  unfold forward_config. rewrite !andb_true_iff, !Z.leb_le. tauto.
Qed.

Lemma enc_expr_fold (c : Config) (p : nat) :
  fold_left (fun e stage => Call stage e) (map (enc_stage c) (seq 0 p)) Input
  = enc_expr c p.
Proof.
  induction p as [| p IH]; [reflexivity |].
  rewrite seq_S, map_app, fold_left_app, IH. reflexivity.
Qed.

Section Forward.

Variable c : Config.
Variables B L : Z.
Hypothesis Hcfg : forward_config c = true.
Hypothesis Hb : built c.
Hypothesis HL : float_exact c L = true.

Let k := c.(kernel_size).
Let s := c.(stride).
Let r := c.(resample).
Let n := Z.to_nat c.(depth).
Let f := Torch.conv_len k s.
Let d := dec_len k s.
Let V := valid_length_ceil c L.
Let l0 := encoder_input_length c L.
Let y0 := Nat.iter n f l0.
Let es := map (skip_tensor c B l0) (seq 0 n).
Let x0 := {| t_shape := [B; c.(chin); l0]; t_expr := Input |}.
Let xe := {| t_shape := [B; enc_in c n; y0]; t_expr := enc_expr c n |}.
Let xb := dec_tensor c B n y0 0.

Lemma forward_facts :
  (r = 1 \/ r = 2 \/ r = 4) /\ 1 <= k /\ 1 <= s /\ (1 <= n)%nat
  /\ 1 <= c.(chin) /\ 1 <= c.(chout) /\ 0 <= L.
Proof.
  destruct (forward_config_inv c Hcfg) as (Hv & Hd & Hi & Ho).
  apply valid_config_inv in Hv.
  apply float_exact_inv in HL.
  unfold r, k, s, n. intuition lia.
Qed.

Lemma forward_widths : forall i, (i < n)%nat -> 1 <= width c i.
Proof.
  destruct (forward_config_inv c Hcfg) as (_ & Hd & _).
  now apply built_widths_pos.
Qed.

Lemma padded_ge : L <= V.
Proof.
  destruct (forward_config_inv c Hcfg) as (Hv & _).
  now apply valid_length_ceil_ge.
Qed.

(** The encoder input is long enough for every stage. *)
Lemma encoder_input_admissible : Nat.iter n d 1 <= l0.
Proof.
  destruct forward_facts as (Hr & Hk & Hs & Hn & _).
  assert (Hup : expanded_length c L <= l0).
  { unfold l0, encoder_input_length, valid_length_ceil. apply ceil_div_upper. fold r. lia. }
  unfold expanded_length in Hup. fold n k s r in Hup.
  assert (H1 : 1 <= Nat.iter n (enc_len k s) (L * r)).
  { destruct n as [| n']; [lia |]. rewrite Nat.iter_succ. apply enc_len_ge_1. }
  apply (iter_dec_mono k s Hs n) in H1. fold d in H1. fold d in Hup. lia.
Qed.

Lemma bottleneck_length : 1 <= y0.
Proof.
  destruct forward_facts as (Hr & Hk & Hs & Hn & _).
  apply iter_conv_ge; try assumption. apply encoder_input_admissible.
Qed.

(** The decoder gives back at least the scaled input length. *)
Lemma decoder_output_ge : r * L <= Nat.iter n d y0.
Proof.
  destruct forward_facts as (Hr & Hk & Hs & Hn & _).
  destruct (forward_config_inv c Hcfg) as (Hv & _).
  pose proof (expanded_length_ge c L Hv) as Hge.
  assert (Hup : expanded_length c L <= l0).
  { unfold l0, encoder_input_length, valid_length_ceil. apply ceil_div_upper. fold r. lia. }
  unfold expanded_length in Hge, Hup. fold n k s r in Hge, Hup.
  set (m := Nat.iter n (enc_len k s) (L * r)) in *.
  assert (Hm : m <= y0) by (apply iter_conv_ge; assumption).
  apply (iter_dec_mono k s Hs n) in Hm. fold d in Hm. fold d in Hge. lia.
Qed.

Lemma forward_input_ok (mix : shape) :
  accepted_input c B L mix ->
  forward_input (arch c) mix
  = Ok (L, if c.(normalize) then Some [B; 1; 1] else None, [B; c.(chin); l0]).
Proof.
  intros Hmix.
  destruct forward_facts as (Hr & Hk & Hs & Hn & _ & _ & HL0).
  destruct (forward_config_inv c Hcfg) as (Hv & _).
  pose proof padded_ge as HV.
  assert (E : (mix0 <- (if Torch.dim mix =? 2 then Torch.unsqueeze_1 mix else Ok mix) ;;
               Ok mix0) = Ok [B; c.(chin); L]).
  { destruct Hmix as [-> | [-> ->]]; reflexivity. }
  unfold forward_input.
  destruct (if Torch.dim mix =? 2 then Torch.unsqueeze_1 mix else Ok mix) as [mix0 | e];
    cbn [bind] in E; [| discriminate].
  inversion E; subst mix0; clear E. cbn [bind arch cfg].
  assert (En : forall K : shape * option shape -> result (Z * option shape * shape),
             bind (if c.(normalize)
                   then mono <- Torch.mean_dim_1 [B; c.(chin); L] ;;
                        std <- Torch.std_last mono ;;
                        mix1 <- Torch.broadcast [B; c.(chin); L] std ;;
                        Ok (mix1, Some std)
                   else Ok ([B; c.(chin); L], None)) K
             = K ([B; c.(chin); L], if c.(normalize) then Some [B; 1; 1] else None)).
  { intros K. destruct c.(normalize); [| reflexivity].
    cbn [Torch.mean_dim_1 bind Torch.std_last Torch.last_dim rev app Torch.set_last
         removelast].
    now rewrite broadcast_keepdim. }
  etransitivity; [apply En |]. cbn [bind Torch.last_dim rev app].
  rewrite valid_length_closed by assumption. cbn [bind]. fold V.
  unfold Torch.pad_right, Torch.last_dim. cbn [rev app bind].
  destruct (Z.leb_spec 0 (L + (V - L))); [| lia].
  unfold Torch.set_last. cbn [removelast app].
  replace (L + (V - L)) with V by lia.
  fold r. unfold l0, encoder_input_length. fold r V.
  destruct Hr as [Hr | [Hr | Hr]].
  - replace (r * V) with V by lia. rewrite Hr. reflexivity.
  - replace (r * V) with (2 * V) by lia. rewrite Hr. reflexivity.
  - replace (r * V) with (2 * (2 * V)) by lia. rewrite Hr. reflexivity.
Qed.

Lemma encoder_prefix_ok (i : nat) :
  (i <= n)%nat ->
  encoder_state (arch c) x0 i
  = Ok ({| t_shape := [B; enc_in c i; Nat.iter i f l0]; t_expr := enc_expr c i |},
        firstn i es).
Proof.
  intros Hi. destruct forward_facts as (Hr & Hk & Hs & Hn & Hci & Hco & _).
  unfold encoder_state, es. cbn [arch encoder]. fold n.
  rewrite !firstn_map_seq by assumption.
  assert (Hadm : Nat.iter i d 1 <= l0).
  { pose proof encoder_input_admissible as Ha.
    replace n with (i + (n - i))%nat in Ha by lia.
    rewrite Nat.iter_add in Ha.
    assert (H1 : 1 <= Nat.iter (n - i) d 1) by (apply iter_dec_ge_1; assumption || lia).
    apply (iter_dec_mono k s Hs i) in H1.
    eapply Z.le_trans; [exact H1 | exact Ha]. }
  apply (encode_loop c B n); assumption || exact forward_widths.
Qed.

Lemma encoder_ok :
  for_each (arch c).(encoder) encode_step (x0, []) = Ok (xe, es).
Proof.
  pose proof (encoder_prefix_ok n (Nat.le_refl n)) as H.
  unfold encoder_state in H. rewrite !firstn_all2 in H.
  - exact H.
  - unfold es. rewrite length_map, length_seq. lia.
  - cbn [arch encoder]. fold n. rewrite length_map, length_seq. lia.
Qed.

Lemma es_length : List.length es = n.
Proof. unfold es. now rewrite length_map, length_seq. Qed.

Lemma es_nth (i : nat) : (i < n)%nat -> nth_error es i = Some (skip_tensor c B l0 i).
Proof. intros Hi. unfold es. now apply nth_error_map_seq. Qed.

(** The lengths at decoder stage [j]: the feature map is not empty and not
    longer than the skip on top of the stack. *)
Lemma stage_lengths (j : nat) :
  (j < n)%nat -> 1 <= Nat.iter j d y0 <= Nat.iter (S (n - 1 - j)) f l0.
Proof.
  intros Hj. destruct forward_facts as (Hr & Hk & Hs & Hn & _). split.
  - apply iter_dec_ge_1; try assumption. apply bottleneck_length.
  - assert (Ey : y0 = Nat.iter j f (Nat.iter (S (n - 1 - j)) f l0)).
    { unfold y0. rewrite <- Nat.iter_add. f_equal. lia. }
    rewrite Ey. apply iter_dec_conv_le; assumption.
Qed.

Lemma dec_tensor_width (j : nat) :
  (j < n)%nat ->
  dec_tensor c B n y0 j
  = {| t_shape := [B; width c (n - 1 - j); Nat.iter j d y0];
       t_expr := dec_expr c n y0 j |}.
Proof.
  intros Hj. unfold dec_tensor. f_equal. f_equal. f_equal.
  destruct j as [| j'].
  - replace n with (S (n - 1 - 0)) at 1 by lia. reflexivity.
  - replace (n - S j')%nat with (S (n - 1 - S j')) at 1 by lia. reflexivity.
Qed.

Lemma bottleneck_forward : bottleneck (arch c) xe = Ok xb.
Proof. apply bottleneck_ok. apply bottleneck_length. Qed.

(** The state of the decoder loop after [j] stages. *)
Lemma decoder_prefix_ok (j : nat) :
  (j <= n)%nat ->
  decoder_state (arch c) xb es j = Ok (dec_tensor c B n y0 j, firstn (n - j) es).
Proof.
  destruct forward_facts as (Hr & Hk & Hs & Hn & Hci & Hco & _).
  induction j as [| j IH]; intros Hj.
  - unfold decoder_state. cbn [firstn for_each].
    rewrite firstn_all2 by (rewrite es_length; lia). reflexivity.
  - unfold decoder_state in *.
    assert (Hst : nth_error (arch c).(decoder) j = Some (dec_stage c (n - 1 - j))).
    { cbn [arch decoder]. fold n. apply nth_error_rev_map_seq. lia. }
    rewrite (firstn_snoc _ _ _ Hst), for_each_app, IH by lia. cbn [bind for_each].
    assert (Hsk : firstn (n - j) es
                  = firstn (n - S j) es ++ [skip_tensor c B l0 (n - 1 - j)]).
    { replace (n - j)%nat with (S (n - S j)) by lia.
      apply firstn_snoc. replace (n - S j)%nat with (n - 1 - j)%nat by lia.
      apply es_nth. lia. }
    rewrite Hsk, dec_tensor_width by lia.
    unfold skip_tensor, skip_shape. fold k s f.
    pose proof (stage_lengths j ltac:(lia)) as [Hy Ha].
    etransitivity.
    { apply bind_ok. apply (decode_step_ok c B n);
        first [assumption | exact forward_widths | lia]. }
    cbn [for_each]. f_equal. f_equal.
    unfold dec_tensor. cbn [dec_expr]. fold k s d.
    replace (n - S j)%nat with (n - 1 - j)%nat by lia.
    reflexivity.
Qed.

Lemma decoder_ok :
  for_each (arch c).(decoder) decode_step (xb, es)
  = Ok (dec_tensor c B n y0 n, []).
Proof.
  pose proof (decoder_prefix_ok n (Nat.le_refl n)) as H.
  unfold decoder_state in H. rewrite firstn_all2 in H.
  - etransitivity; [exact H |]. rewrite Nat.sub_diag. reflexivity.
  - cbn [arch decoder]. fold n. rewrite length_rev, length_map, length_seq. lia.
Qed.

Lemma decoder_output_shape :
  (dec_tensor c B n y0 n).(t_shape) = [B; c.(chout); Nat.iter n d y0].
Proof.
  destruct forward_facts as (_ & _ & _ & Hn & _).
  unfold dec_tensor. cbn [t_shape]. rewrite Nat.sub_diag.
  destruct n; [lia | reflexivity].
Qed.

Lemma forward_unet_ok : forward_unet (arch c) x0 = Ok (dec_tensor c B n y0 n).
Proof.
  unfold forward_unet. bind_step encoder_ok.
  bind_step bottleneck_forward.
  bind_step decoder_ok. reflexivity.
Qed.

Lemma forward_output_ok (ch D : Z) :
  r * L <= D ->
  forward_output (arch c) L [B; ch; D] = Ok [B; ch; L].
Proof.
  intros HD. destruct forward_facts as (Hr & Hk & Hs & Hn & _ & _ & HL0).
  unfold forward_output. cbn [arch cfg]. fold r.
  destruct Hr as [Hr | [Hr | Hr]]; rewrite Hr in *; cbn [Z.eqb Pos.eqb bind];
    unfold downsample2, Torch.last_dim, Torch.set_last; cbn [rev app bind removelast];
    apply slice_last_ok; (split; [assumption |]).
  - lia.
  - apply Z.div_le_lower_bound; lia.
  - apply Z.div_le_lower_bound; [lia |].
    assert (2 * L <= (D + 1) / 2) by (apply Z.div_le_lower_bound; lia). lia.
Qed.

(** From the input to the truncated output of the decoder. *)
Lemma forward_body_ok (mix : shape) (K : shape -> result layout) :
  accepted_input c B L mix ->
  (' (length, std, x) <- forward_input (arch c) mix ;;
   x <- forward_unet (arch c) {| t_shape := x; t_expr := Input |} ;;
   x <- forward_output (arch c) length x.(t_shape) ;;
   K x)
  = K [B; c.(chout); L].
Proof.
  intros Hmix.
  bind_step (forward_input_ok mix Hmix).
  bind_step forward_unet_ok.
  rewrite decoder_output_shape.
  bind_step (forward_output_ok c.(chout) _ decoder_output_ge).
  reflexivity.
Qed.

(** The first head on the truncated output of the decoder: the shape of its
    flattened output and where each entry comes from. *)
Lemma first_head_ok :
  c.(kernel_out) <= L ->
  1 <= c.(n_bits) / (40960 / c.(kernel_out)) ->
  let C := c.(n_bits) / (40960 / c.(kernel_out)) in
  let T := L / c.(kernel_out) in
  exists y,
    first_head (arch c) [B; c.(chout); L] = Ok y
    /\ y.(lay_shape) = [B; T * C]
    /\ forall b t ch, 0 <= t < T -> 0 <= ch < C ->
         y.(lay_source) [b; t * C + ch] = [b; ch; t].
Proof.
  intros Hko HC C T.
  destruct forward_facts as (_ & _ & _ & _ & _ & Hco & _).
  pose proof (built_kernel_out c Hb) as Hk1.
  assert (ET : Torch.conv_len c.(kernel_out) c.(kernel_out) L = T).
  { unfold Torch.conv_len, T.
    replace (L - c.(kernel_out)) with (L + (-1) * c.(kernel_out)) by lia.
    rewrite Z.div_add by lia. lia. }
  unfold first_head. cbn [arch output_bit apply_layer]. fold C.
  rewrite conv1d_ok by (assumption || lia). rewrite ET.
  cbn [bind]. unfold Layout.transpose_1_2, Layout.of_shape.
  cbn [lay_shape lay_source Torch.transpose_1_2 bind].
  unfold Layout.flatten_from_1.
  cbn [lay_shape lay_source Torch.flatten_from_1 bind fold_left tl].
  eexists. split; [reflexivity |]. cbn [lay_shape lay_source].
  split; [reflexivity |].
  intros b t ch Ht Hch.
  unfold Layout.unravel. cbn [rev app Layout.unravel_rev].
  rewrite Z.add_comm, Z.mod_add, Z.div_add by lia.
  rewrite (Z.mod_small ch C), (Z.div_small ch C) by lia.
  cbn [Z.add]. rewrite Z.mod_small by lia. reflexivity.
Qed.

End Forward.

(** ** The output heads *)

(** C1, as stated, fails: on a batch of three waveforms of length 1000 the
    first head gives 8 channels over 15 time steps, flattened to 120 entries
    per batch element and not to the 5120 of [n_bits], and [forward] does
    not return a batch x [n_bits] tensor; and with 64 bits read in blocks of
    8 samples the head has [64 // (40960 // 8) = 0] channels and refuses its
    input. *)
Lemma first_head_not_n_bits :
  (exists m log,
     Demucs_init two_stage_config [] = (Ok m, log)
     /\ m.(output_bit) = Conv1d 1 8 64 64
     /\ head_shape (forward_first_head m [3; 1; 1000]) = Ok [3; 120]
     /\ forward m [3; 1; 1000] <> Ok [3; two_stage_config.(n_bits)])
  /\ (exists m log,
        Demucs_init small_head_config [] = (Ok m, log)
        /\ m.(output_bit) = Conv1d 1 0 8 8
        /\ head_shape (forward_first_head m [3; 1000]) = Raise RuntimeError).
Proof.
  split.
  - eexists. eexists. split; [vm_compute; reflexivity |].
    split; [reflexivity |]. split; [vm_compute; reflexivity |].
    vm_compute. discriminate.
  - eexists. eexists. split; [vm_compute; reflexivity |].
    split; [reflexivity |]. vm_compute. reflexivity.
Qed.

(** C1, amended: in every model that the constructor builds on a valid
    configuration with at least one stage, one input and one output channel,
    whose head has at least one channel ([n_bits // (40960 // kernel_out)] is
    at least 1), for an accepted input of at least one item and of a time
    length [L] that is at least [kernel_out] and in the range where the
    padding arithmetic is exact, the first output head has
    [C = n_bits // (40960 // kernel_out)] channels over [T = L // kernel_out]
    time steps, and its flattening has shape batch x [T * C] and is
    time-major: entry [t * C + ch] of item [b] is entry [(b, ch, t)] of the
    head's output.  That is batch x [n_bits] when [T = 40960 // kernel_out]
    and [40960 // kernel_out] divides [n_bits]. *)
Theorem first_head_shape
    (c : Config) (m : Demucs) (log : list Layer) (B L : Z) (mix : shape) :
  Demucs_init c [] = (Ok m, log) ->
  forward_config c = true ->
  float_exact c L = true ->
  1 <= B ->
  accepted_input c B L mix ->
  c.(kernel_out) <= L ->
  1 <= c.(n_bits) / (40960 / c.(kernel_out)) ->
  let C := c.(n_bits) / (40960 / c.(kernel_out)) in
  let T := L / c.(kernel_out) in
  m.(output_bit) = Conv1d c.(chout) C c.(kernel_out) c.(kernel_out)
  /\ exists y,
       forward_first_head m mix = Ok y
       /\ y.(lay_shape) = [B; T * C]
       /\ (forall b t ch, 0 <= t < T -> 0 <= ch < C ->
             y.(lay_source) [b; t * C + ch] = [b; ch; t])
       /\ (T = 40960 / c.(kernel_out) ->
           c.(n_bits) mod (40960 / c.(kernel_out)) = 0 ->
           y.(lay_shape) = [B; c.(n_bits)]).
Proof.
  intros E Hcfg HL HB Hmix Hko HC C T.
  apply init_inv in E. destruct E as [-> Hb].
  split; [reflexivity |].
  destruct (first_head_ok c B L Hcfg Hb HL Hko HC) as (y & Hy & Hs & Hsrc).
  exists y. split; [| split; [exact Hs | split; [exact Hsrc |]]].
  - unfold forward_first_head.
    etransitivity; [| exact Hy].
    exact (forward_body_ok c B L Hcfg Hb HL mix (first_head (arch c)) Hmix).
  - intros HT Hdiv. rewrite Hs. fold T C. rewrite HT. do 2 f_equal.
    pose proof (built_kernel_out c Hb) as Hk1.
    assert (Hfac : 40960 / c.(kernel_out) <> 0).
    { assert (1 <= 40960 / c.(kernel_out)) by (apply Z.div_le_lower_bound; lia). lia. }
    unfold C. symmetry. now apply Z_div_exact_full_2.
Qed.

Lemma first_head_shape_witness :
  exists m log y,
    Demucs_init default_config [] = (Ok m, log)
    /\ forward_first_head m [3; 2; 40960] = Ok y
    /\ y.(lay_shape) = [3; 5120]
    /\ y.(lay_source) [1; 8 * 7 + 5] = [1; 5; 7].
Proof.
  destruct (first_head_shape default_config (arch default_config)
              (snd (Demucs_init default_config [])) 3 40960 [3; 2; 40960])
    as (_ & y & Hy & _ & Hsrc & Hn).
  - vm_compute. reflexivity.
  - reflexivity.
  - reflexivity.
  - lia.
  - left. reflexivity.
  - cbn. lia.
  - vm_compute. discriminate.
  - exists (arch default_config), (snd (Demucs_init default_config [])), y.
    split; [vm_compute; reflexivity |]. split; [exact Hy |].
    split; [apply Hn; reflexivity |].
    apply (Hsrc 1 7 5); vm_compute; split; congruence.
Defined.

(** Every layer gives out as many dimensions as it takes in. *)
Lemma glu_rank (n : nat) :
  forall x y, Torch.glu n x = Ok y -> List.length y = List.length x.
Proof.
  induction n as [| n IH]; intros [| a x] y H; cbn in H; try discriminate.
  - destruct (a mod 2 =? 0); inversion H. reflexivity.
  - destruct (Torch.glu n x) as [x' |] eqn:E; cbn in H; inversion H.
    cbn. f_equal. now apply IH.
Qed.

Lemma set_last_rank (x : shape) (l l' : Z) :
  Torch.last_dim x = Ok l -> List.length (Torch.set_last x l') = List.length x.
Proof.
  unfold Torch.last_dim, Torch.set_last.
  destruct x as [| a x] using rev_ind; [discriminate |]. intros _.
  rewrite removelast_last, !length_app. reflexivity.
Qed.

Lemma apply_layer_rank (l : Layer) (x y : shape) :
  apply_layer l x = Ok y -> List.length y = List.length x.
Proof.
  destruct l; cbn [apply_layer]; intros H.
  - unfold Torch.conv1d in H.
    destruct x as [| a [| b [| n [| ? ?]]]]; try discriminate;
      match type of H with (if ?t then _ else _) = _ => destruct t end;
      inversion H; reflexivity.
  - unfold Torch.conv_transpose1d in H.
    destruct x as [| a [| b [| n [| ? ?]]]]; try discriminate;
      match type of H with (if ?t then _ else _) = _ => destruct t end;
      inversion H; reflexivity.
  - now inversion H.
  - destruct (dim <? 0); [discriminate |]. now apply glu_rank in H.
  - unfold Torch.lstm in H.
    destruct x as [| a [| b [| n [| ? ?]]]]; try discriminate;
      match type of H with (if ?t then _ else _) = _ => destruct t end;
      inversion H; reflexivity.
  - unfold Torch.linear in H.
    destruct (rev x) as [| l rest] eqn:E; [discriminate |].
    destruct (l =? in_features); inversion H.
    apply set_last_rank with (l := l). unfold Torch.last_dim. now rewrite E.
Qed.

(** The first adaptation block leaves a two-dimensional tensor in [x]. *)
Lemma first_head_rank (self : Demucs) (x : shape) (y : layout) :
  first_head self x = Ok y -> exists a b, y.(lay_shape) = [a; b].
Proof.
  unfold first_head. intros H.
  destruct (apply_layer self.(output_bit) x) as [x1 |]; cbn [bind] in H; [| discriminate].
  unfold Layout.transpose_1_2, Layout.of_shape in H. cbn [lay_shape lay_source] in H.
  destruct (Torch.transpose_1_2 x1) as [t |]; cbn [bind] in H; [| discriminate].
  unfold Layout.flatten_from_1 in H. cbn [lay_shape lay_source] in H.
  unfold Torch.flatten_from_1 in H.
  destruct t as [| a [| b rest]]; cbn [bind] in H; try discriminate.
  inversion H. cbn [lay_shape]. eauto.
Qed.

(** The second adaptation block raises on a two-dimensional tensor: whatever
    [output_bit1] gives out has two dimensions, and [torch.transpose(x1, 1, 2)]
    needs three. *)
Lemma second_head_raises (self : Demucs) (a b : Z) :
  exists e, second_head self [a; b] = Raise e.
Proof.
  unfold second_head.
  destruct (apply_layer self.(output_bit1) [a; b]) as [x1 | e] eqn:E; cbn [bind].
  - apply apply_layer_rank in E.
    destruct x1 as [| p [| q [| ? ?]]]; try discriminate.
    eexists. reflexivity.
  - eexists. reflexivity.
Qed.

(** C4: [forward] never returns.  When the first head has produced its
    flattened output, [x] is rebound to that two-dimensional tensor and the
    second block, applied to it, raises; so no value is returned, for any
    model and any input. *)
Theorem forward_raises (self : Demucs) (mix : shape) :
  exists e, forward self mix = Raise e.
Proof.
  unfold forward.
  destruct (forward_input self mix) as [[[len std] x] | e]; cbn [bind];
    [| eexists; reflexivity].
  destruct (forward_unet self _) as [x1 | e]; cbn [bind]; [| eexists; reflexivity].
  destruct (forward_output self len _) as [x2 | e]; cbn [bind]; [| eexists; reflexivity].
  destruct (first_head self x2) as [x3 | e] eqn:E; cbn [bind]; [| eexists; reflexivity].
  destruct (first_head_rank self x2 x3 E) as (a & b & ->).
  destruct (second_head_raises self a b) as [e ->]. cbn [bind].
  eexists. reflexivity.
Qed.

(** At a batch of three waveforms of length 40960 the first head gives the
    3 x 5120 tensor and [output_bit1], which expects one input channel,
    refuses it; with a batch of one, [torch.transpose] refuses the
    two-dimensional result of [output_bit1]. *)
Example second_block_raises_at_40960 :
  exists m log,
    Demucs_init two_stage_config [] = (Ok m, log)
    /\ head_shape (forward_first_head m [3; 1; 40960]) = Ok [3; 5120]
    /\ forward m [3; 1; 40960] = Raise RuntimeError
    /\ head_shape (forward_first_head m [1; 1; 40960]) = Ok [1; 5120]
    /\ forward m [1; 1; 40960] = Raise IndexError.
Proof.
  eexists. eexists. split; [vm_compute; reflexivity |].
  repeat split; vm_compute; reflexivity.
Qed.

(** ** The skip connections *)

(** C3: in the forward pass of every model that the constructor builds on a
    valid configuration with at least one stage, one input and one output
    channel, on an accepted input of at least one item whose length is in
    the range where the padding arithmetic is exact, the encoder pushes the
    output of every stage and the decoder loop pops them last in first out:
    decoder stage [j] starts with the outputs of encoder stages [0] to
    [depth - 1 - j] on the stack and pops the output of encoder stage
    [depth - 1 - j]; the time length of the popped skip is at least that of
    the current feature map; and what the stage is applied to is the sum of
    the feature map and of the skip cut to the feature map's length, a tensor
    with the shape of the feature map. *)
Theorem skips_lifo_aligned
    (c : Config) (m : Demucs) (log : list Layer) (B L : Z) (mix : shape) :
  Demucs_init c [] = (Ok m, log) ->
  forward_config c = true ->
  float_exact c L = true ->
  1 <= B ->
  accepted_input c B L mix ->
  exists std x0 xe es xb xd,
    let n := Z.to_nat c.(depth) in
    forward_input m mix = Ok (L, std, x0)
    /\ for_each m.(encoder) encode_step ({| t_shape := x0; t_expr := Input |}, [])
       = Ok (xe, es)
    /\ bottleneck m xe = Ok xb
    /\ for_each m.(decoder) decode_step (xb, es) = Ok (xd, [])
    /\ List.length es = n
    /\ (forall i skip, nth_error es i = Some skip ->
                       skip.(t_expr) = encoder_output m i)
    /\ (forall j, (j < n)%nat ->
          exists xj skip stage lx ls y,
            decoder_state m xb es j = Ok (xj, firstn (n - j) es)
            /\ nth_error m.(decoder) j = Some stage
            /\ nth_error es (n - 1 - j) = Some skip
            /\ Torch.last_dim xj.(t_shape) = Ok lx
            /\ Torch.last_dim skip.(t_shape) = Ok ls
            /\ lx <= ls
            /\ decoder_state m xb es (S j) = Ok (y, firstn (n - 1 - j) es)
            /\ y.(t_expr) = Call stage (Add xj.(t_expr) (SliceLast skip.(t_expr) lx))
            /\ apply_seq stage xj.(t_shape) = Ok y.(t_shape)).
Proof.
  intros E Hcfg HL HB Hmix.
  apply init_inv in E. destruct E as [-> Hb].
  destruct (forward_config_inv c Hcfg) as (Hv & Hd & Hci & Hco).
  destruct (valid_config_inv c Hv) as (_ & _ & Hk & Hs).
  pose proof (built_widths_pos c Hb Hd) as Hw.
  set (n := Z.to_nat c.(depth)) in *.
  set (l0 := encoder_input_length c L).
  set (y0 := Nat.iter n (Torch.conv_len c.(kernel_size) c.(stride)) l0).
  exists (if c.(normalize) then Some [B; 1; 1] else None), [B; c.(chin); l0],
    {| t_shape := [B; enc_in c n; y0]; t_expr := enc_expr c n |},
    (map (skip_tensor c B l0) (seq 0 n)),
    (dec_tensor c B n y0 0), (dec_tensor c B n y0 n).
  cbv zeta.
  split; [exact (forward_input_ok c B L Hcfg HL mix Hmix) |].
  split; [exact (encoder_ok c B L Hcfg Hb HL) |].
  split; [exact (bottleneck_forward c B L Hcfg HL) |].
  split; [exact (decoder_ok c B L Hcfg Hb HL) |].
  split; [now rewrite length_map, length_seq |].
  split.
  - intros i skip Hi.
    assert (Hlt : (i < n)%nat).
    { assert (Hs' : nth_error (map (skip_tensor c B l0) (seq 0 n)) i <> None)
        by congruence.
      apply nth_error_Some in Hs'. now rewrite length_map, length_seq in Hs'. }
    rewrite nth_error_map_seq in Hi by assumption.
    inversion Hi; subst skip; clear Hi.
    unfold encoder_output, skip_tensor. cbn [arch encoder t_expr]. fold n.
    rewrite firstn_map_seq by lia. now rewrite enc_expr_fold.
  - intros j Hj.
    pose proof (stage_lengths c B L Hcfg HL j Hj) as Hlen.
    exists (dec_tensor c B n y0 j), (skip_tensor c B l0 (n - 1 - j)),
      (dec_stage c (n - 1 - j)),
      (Nat.iter j (dec_len c.(kernel_size) c.(stride)) y0),
      (Nat.iter (S (n - 1 - j)) (Torch.conv_len c.(kernel_size) c.(stride)) l0),
      (dec_tensor c B n y0 (S j)).
    split; [apply (decoder_prefix_ok c B L Hcfg Hb HL); fold n; lia |].
    split; [cbn [arch decoder]; fold n; apply nth_error_rev_map_seq; lia |].
    split; [apply nth_error_map_seq; lia |].
    split; [reflexivity |]. split; [reflexivity |].
    split; [apply Hlen |].
    split.
    { replace (n - 1 - j)%nat with (n - S j)%nat by lia.
      apply (decoder_prefix_ok c B L Hcfg Hb HL). fold n. lia. }
    split; [reflexivity |].
    pose proof (dec_tensor_width c B L j Hj) as Hdw. fold n l0 y0 in Hdw.
    rewrite Hdw. cbn [t_shape dec_tensor].
    replace (n - S j)%nat with (n - 1 - j)%nat by lia.
    apply (dec_stage_apply c B n); first [assumption | lia | apply Hlen].
Qed.

Lemma skips_lifo_aligned_witness :
  exists m log std x0 xe es xb xd,
    let n := Z.to_nat default_config.(depth) in
    Demucs_init default_config [] = (Ok m, log)
    /\ forward_input m [3; 2; 1000] = Ok (1000, std, x0)
    /\ for_each m.(encoder) encode_step ({| t_shape := x0; t_expr := Input |}, [])
       = Ok (xe, es)
    /\ bottleneck m xe = Ok xb
    /\ for_each m.(decoder) decode_step (xb, es) = Ok (xd, [])
    /\ List.length es = n
    /\ (forall i skip, nth_error es i = Some skip ->
                       skip.(t_expr) = encoder_output m i)
    /\ (forall j, (j < n)%nat ->
          exists xj skip stage lx ls y,
            decoder_state m xb es j = Ok (xj, firstn (n - j) es)
            /\ nth_error m.(decoder) j = Some stage
            /\ nth_error es (n - 1 - j) = Some skip
            /\ Torch.last_dim xj.(t_shape) = Ok lx
            /\ Torch.last_dim skip.(t_shape) = Ok ls
            /\ lx <= ls
            /\ decoder_state m xb es (S j) = Ok (y, firstn (n - 1 - j) es)
            /\ y.(t_expr) = Call stage (Add xj.(t_expr) (SliceLast skip.(t_expr) lx))
            /\ apply_seq stage xj.(t_shape) = Ok y.(t_shape)).
Proof.
  destruct (skips_lifo_aligned default_config (arch default_config)
              (snd (Demucs_init default_config [])) 3 1000 [3; 2; 1000])
    as (std & x0 & xe & es & xb & xd & H).
  - vm_compute. reflexivity.
  - reflexivity.
  - reflexivity.
  - lia.
  - left. reflexivity.
  - exists (arch default_config), (snd (Demucs_init default_config [])),
      std, x0, xe, es, xb, xd.
    cbv zeta. split; [vm_compute; reflexivity | exact H].
Defined.

(** ** The forward pass: lengths and refused inputs *)

(** The start of [forward] on a batch with any number of channels. *)
Lemma forward_input_channels (c : Config) (B C L : Z) (mix : shape) :
  valid_config c = true ->
  float_exact c L = true ->
  (if Torch.dim mix =? 2 then Torch.unsqueeze_1 mix else Ok mix) = Ok [B; C; L] ->
  forward_input (arch c) mix
  = Ok (L, if c.(normalize) then Some [B; 1; 1] else None,
        [B; C; encoder_input_length c L]).
Proof.
  intros Hv HL Emix.
  pose proof (valid_length_ceil_ge c L Hv) as HV.
  destruct (valid_config_inv c Hv) as (Hr & _ & _ & _).
  destruct (float_exact_inv c L HL) as (HL0 & _).
  unfold forward_input. rewrite Emix. cbn [bind arch cfg].
  assert (En : forall K : shape * option shape -> result (Z * option shape * shape),
             bind (if c.(normalize)
                   then mono <- Torch.mean_dim_1 [B; C; L] ;;
                        std <- Torch.std_last mono ;;
                        mix1 <- Torch.broadcast [B; C; L] std ;;
                        Ok (mix1, Some std)
                   else Ok ([B; C; L], None)) K
             = K ([B; C; L], if c.(normalize) then Some [B; 1; 1] else None)).
  { intros K. destruct c.(normalize); [| reflexivity].
    cbn [Torch.mean_dim_1 bind Torch.std_last Torch.last_dim rev app Torch.set_last
         removelast].
    now rewrite broadcast_keepdim. }
  etransitivity; [apply En |]. cbn [bind Torch.last_dim rev app].
  rewrite valid_length_closed by assumption. cbn [bind].
  unfold encoder_input_length.
  set (V := valid_length_ceil c L) in *.
  unfold Torch.pad_right, Torch.last_dim. cbn [rev app bind].
  destruct (Z.leb_spec 0 (L + (V - L))); [| lia].
  unfold Torch.set_last. cbn [removelast app].
  replace (L + (V - L)) with V by lia.
  destruct Hr as [Hr | [Hr | Hr]]; rewrite Hr.
  - replace (1 * V) with V by lia. reflexivity.
  - reflexivity.
  - replace (4 * V) with (2 * (2 * V)) by lia. reflexivity.
Qed.

(** X12: in every model that the constructor builds on a valid configuration
    with at least one stage, one input and one output channel, an accepted
    input of at least one item and of a length [L] in the range where the
    padding arithmetic is exact goes through padding, upsampling, the
    encoder, the bottleneck, the decoder, downsampling and truncation without
    a shape error, and comes out with the batch size, [chout] channels and
    the length [L] it came in with. *)
Theorem unet_output_shape
    (c : Config) (m : Demucs) (log : list Layer) (B L : Z) (mix : shape) :
  Demucs_init c [] = (Ok m, log) ->
  forward_config c = true ->
  float_exact c L = true ->
  1 <= B ->
  accepted_input c B L mix ->
  exists std x0 x1,
    forward_input m mix = Ok (L, std, x0)
    /\ forward_unet m {| t_shape := x0; t_expr := Input |} = Ok x1
    /\ forward_output m L x1.(t_shape) = Ok [B; c.(chout); L].
Proof.
  intros E Hcfg HL HB Hmix.
  apply init_inv in E. destruct E as [-> Hb].
  do 3 eexists.
  split; [exact (forward_input_ok c B L Hcfg HL mix Hmix) |].
  split; [exact (forward_unet_ok c B L Hcfg Hb HL) |].
  rewrite (decoder_output_shape c B L Hcfg HL).
  apply (forward_output_ok c B L Hcfg HL).
  exact (decoder_output_ge c B L Hcfg HL).
Qed.

Lemma unet_output_shape_witness :
  exists m log std x0 x1,
    Demucs_init default_config [] = (Ok m, log)
    /\ forward_input m [3; 2; 1000] = Ok (1000, std, x0)
    /\ forward_unet m {| t_shape := x0; t_expr := Input |} = Ok x1
    /\ forward_output m 1000 x1.(t_shape) = Ok [3; default_config.(chout); 1000].
Proof.
  destruct (unet_output_shape default_config (arch default_config)
              (snd (Demucs_init default_config [])) 3 1000 [3; 2; 1000])
    as (std & x0 & x1 & H).
  - vm_compute. reflexivity.
  - reflexivity.
  - reflexivity.
  - lia.
  - left. reflexivity.
  - exists (arch default_config), (snd (Demucs_init default_config [])), std, x0, x1.
    split; [vm_compute; reflexivity | exact H].
Defined.

(** X14: under the same conditions an input shorter than [kernel_out] gets
    through the encoder and the decoder and comes out truncated to its
    length; it is the convolution of the first output head, whose kernel
    does not fit, that refuses it. *)
Theorem first_head_short_input
    (c : Config) (m : Demucs) (log : list Layer) (B L : Z) (mix : shape) :
  Demucs_init c [] = (Ok m, log) ->
  forward_config c = true ->
  float_exact c L = true ->
  1 <= B ->
  accepted_input c B L mix ->
  L < c.(kernel_out) ->
  exists std x0 x1,
    forward_input m mix = Ok (L, std, x0)
    /\ forward_unet m {| t_shape := x0; t_expr := Input |} = Ok x1
    /\ forward_output m L x1.(t_shape) = Ok [B; c.(chout); L]
    /\ apply_layer m.(output_bit) [B; c.(chout); L] = Raise RuntimeError
    /\ forward_first_head m mix = Raise RuntimeError.
Proof.
  intros E Hcfg HL HB Hmix Hko.
  apply init_inv in E. destruct E as [-> Hb].
  assert (Hhead : apply_layer (arch c).(output_bit) [B; c.(chout); L]
                  = Raise RuntimeError).
  { cbn [arch output_bit apply_layer Torch.conv1d]. unfold Torch.conv_accepts.
    destruct (Z.leb_spec c.(kernel_out) L); [lia |].
    rewrite !andb_false_r. reflexivity. }
  do 3 eexists.
  split; [exact (forward_input_ok c B L Hcfg HL mix Hmix) |].
  split; [exact (forward_unet_ok c B L Hcfg Hb HL) |].
  split.
  { rewrite (decoder_output_shape c B L Hcfg HL).
    apply (forward_output_ok c B L Hcfg HL).
    exact (decoder_output_ge c B L Hcfg HL). }
  split; [exact Hhead |].
  unfold forward_first_head.
  etransitivity;
    [exact (forward_body_ok c B L Hcfg Hb HL mix (first_head (arch c)) Hmix) |].
  unfold first_head. now rewrite Hhead.
Qed.

Lemma first_head_short_input_witness :
  exists m log,
    Demucs_init default_config [] = (Ok m, log)
    /\ apply_layer m.(output_bit) [3; default_config.(chout); 50] = Raise RuntimeError
    /\ forward_first_head m [3; 2; 50] = Raise RuntimeError.
Proof.
  destruct (first_head_short_input default_config (arch default_config)
              (snd (Demucs_init default_config [])) 3 50 [3; 2; 50])
    as (std & x0 & x1 & _ & _ & _ & H1 & H2).
  - vm_compute. reflexivity.
  - reflexivity.
  - reflexivity.
  - lia.
  - left. reflexivity.
  - cbn. lia.
  - exists (arch default_config), (snd (Demucs_init default_config [])).
    split; [vm_compute; reflexivity |]. split; assumption.
Defined.

(** X15: in every model that the constructor builds on a valid configuration
    with at least one stage, a batch of at least one item whose channel
    count, at least one, is not [chin] - a two-dimensional batch when [chin]
    is not 1 included - gets through the padding and is refused by the first
    convolution of the first encoder stage. *)
Theorem wrong_channels_refused
    (c : Config) (m : Demucs) (log : list Layer) (B C L : Z) (mix : shape) :
  Demucs_init c [] = (Ok m, log) ->
  valid_config c = true ->
  1 <= c.(depth) ->
  float_exact c L = true ->
  1 <= B ->
  1 <= C ->
  C <> c.(chin) ->
  mix = [B; C; L] \/ (mix = [B; L] /\ C = 1) ->
  exists std x0 conv rest,
    forward_input m mix = Ok (L, std, x0)
    /\ nth_error m.(encoder) 0 = Some (conv :: rest)
    /\ apply_layer conv x0 = Raise RuntimeError
    /\ forward_unet m {| t_shape := x0; t_expr := Input |} = Raise RuntimeError
    /\ forward_first_head m mix = Raise RuntimeError.
Proof.
  intros E Hv Hd HL HB HC1 HC Hmix.
  apply init_inv in E. destruct E as [-> Hb].
  assert (Emix : (if Torch.dim mix =? 2 then Torch.unsqueeze_1 mix else Ok mix)
                 = Ok [B; C; L]).
  { destruct Hmix as [-> | [-> ->]]; reflexivity. }
  pose proof (forward_input_channels c B C L mix Hv HL Emix) as Hin.
  destruct (Z.to_nat c.(depth)) as [| n] eqn:En; [lia |].
  assert (Hconv : apply_layer (Conv1d c.(chin) (width c 0) c.(kernel_size) c.(stride))
                    [B; C; encoder_input_length c L] = Raise RuntimeError).
  { cbn [apply_layer Torch.conv1d]. unfold Torch.conv_accepts.
    destruct (Z.eqb_spec C c.(chin)); [contradiction |]. reflexivity. }
  assert (Hun : forward_unet (arch c)
                  {| t_shape := [B; C; encoder_input_length c L]; t_expr := Input |}
                = Raise RuntimeError).
  { unfold forward_unet. cbn [arch encoder]. rewrite En.
    cbn [seq map for_each encode_step]. unfold call at 1. cbn [t_shape t_expr].
    unfold apply_seq at 1, enc_stage at 1. cbn [for_each enc_in].
    rewrite Hconv. reflexivity. }
  do 4 eexists.
  split; [exact Hin |].
  split; [cbn [arch encoder]; rewrite En; reflexivity |].
  split; [exact Hconv |]. split; [exact Hun |].
  unfold forward_first_head. rewrite Hin. cbn [bind]. rewrite Hun. reflexivity.
Qed.

Lemma wrong_channels_refused_witness :
  exists m log std x0 conv rest,
    Demucs_init default_config [] = (Ok m, log)
    /\ forward_input m [3; 1000] = Ok (1000, std, x0)
    /\ nth_error m.(encoder) 0 = Some (conv :: rest)
    /\ apply_layer conv x0 = Raise RuntimeError
    /\ forward_unet m {| t_shape := x0; t_expr := Input |} = Raise RuntimeError
    /\ forward_first_head m [3; 1000] = Raise RuntimeError.
Proof.
  destruct (wrong_channels_refused default_config (arch default_config)
              (snd (Demucs_init default_config [])) 3 1 1000 [3; 1000])
    as (std & x0 & conv & rest & H).
  - vm_compute. reflexivity.
  - reflexivity.
  - cbn. lia.
  - reflexivity.
  - lia.
  - lia.
  - cbn. lia.
  - right. split; reflexivity.
  - exists (arch default_config), (snd (Demucs_init default_config [])),
      std, x0, conv, rest.
    split; [vm_compute; reflexivity | exact H].
Defined.

(** When the resample factor divides the expanded length, the encoder is
    fed exactly the expanded length. *)
Lemma divisible_input (c : Config) (L : Z) :
  valid_config c = true ->
  expanded_length c L mod c.(resample) = 0 ->
  encoder_input_length c L = expanded_length c L.
Proof.
  intros Hv Hdiv. apply valid_config_inv in Hv. destruct Hv as (Hr & Hd & Hk & Hs).
  assert (Hpos : 0 < c.(resample)) by lia.
  unfold encoder_input_length, valid_length_ceil.
  apply Z.mod_divide in Hdiv; [| lia]. destruct Hdiv as [q Hq].
  rewrite Hq. rewrite (ceil_div_unique (q * c.(resample)) _ Hpos q); lia.
Qed.

Lemma iter_conv_dec_split (k s : Z) (i n : nat) (m : Z) :
  1 <= s -> (i <= n)%nat ->
  Nat.iter i (Torch.conv_len k s) (Nat.iter n (dec_len k s) m)
  = Nat.iter (n - i) (dec_len k s) m.
Proof.
  intros Hs Hi.
  assert (E : Nat.iter n (dec_len k s) m
              = Nat.iter i (dec_len k s) (Nat.iter (n - i) (dec_len k s) m)).
  { rewrite <- Nat.iter_add. f_equal. lia. }
  rewrite E. now apply iter_conv_dec_id.
Qed.

(** X11: under the conditions of X12, when the resample factor divides the
    expanded length, no convolution of the encoder leaves time steps over:
    the length [l] each stage is fed has [(l - kernel_size) mod stride = 0]. *)
Theorem no_time_steps_left_over
    (c : Config) (m : Demucs) (log : list Layer) (B L : Z) (mix : shape) :
  Demucs_init c [] = (Ok m, log) ->
  forward_config c = true ->
  float_exact c L = true ->
  1 <= B ->
  accepted_input c B L mix ->
  expanded_length c L mod c.(resample) = 0 ->
  exists std x0,
    forward_input m mix = Ok (L, std, x0)
    /\ forall i, (i < Z.to_nat c.(depth))%nat ->
         exists xi skips l,
           encoder_state m {| t_shape := x0; t_expr := Input |} i = Ok (xi, skips)
           /\ Torch.last_dim xi.(t_shape) = Ok l
           /\ (l - c.(kernel_size)) mod c.(stride) = 0.
Proof.
  intros E Hcfg HL HB Hmix Hdiv.
  apply init_inv in E. destruct E as [-> Hb].
  destruct (forward_config_inv c Hcfg) as (Hv & Hd & _).
  pose proof (divisible_input c L Hv Hdiv) as Hl0.
  destruct (valid_config_inv c Hv) as (_ & _ & Hk & Hs).
  do 2 eexists.
  split; [exact (forward_input_ok c B L Hcfg HL mix Hmix) |].
  intros i Hi. do 3 eexists.
  split; [apply (encoder_prefix_ok c B L Hcfg Hb HL); lia |].
  split; [reflexivity |].
  rewrite Hl0. unfold expanded_length.
  rewrite iter_conv_dec_split by (assumption || lia).
  replace (Z.to_nat c.(depth) - i)%nat with (S (Z.to_nat c.(depth) - i - 1)) by lia.
  rewrite Nat.iter_succ. unfold dec_len at 1.
  match goal with |- (?a * ?s + ?k - ?k) mod ?s = 0 =>
    replace (a * s + k - k) with (a * s) by lia end.
  apply Z_mod_mult.
Qed.

Lemma no_time_steps_left_over_witness :
  exists m log std x0,
    Demucs_init default_config [] = (Ok m, log)
    /\ forward_input m [3; 2; 1000] = Ok (1000, std, x0)
    /\ forall i, (i < Z.to_nat default_config.(depth))%nat ->
         exists xi skips l,
           encoder_state m {| t_shape := x0; t_expr := Input |} i = Ok (xi, skips)
           /\ Torch.last_dim xi.(t_shape) = Ok l
           /\ (l - default_config.(kernel_size)) mod default_config.(stride) = 0.
Proof.
  destruct (no_time_steps_left_over default_config (arch default_config)
              (snd (Demucs_init default_config [])) 3 1000 [3; 2; 1000])
    as (std & x0 & H).
  - vm_compute. reflexivity.
  - reflexivity.
  - reflexivity.
  - lia.
  - left. reflexivity.
  - reflexivity.
  - exists (arch default_config), (snd (Demucs_init default_config [])), std, x0.
    split; [vm_compute; reflexivity | exact H].
Defined.

(** X13: under the same conditions every popped skip already has the shape
    of the feature map it is added to, so that no skip is cut, and the
    decoder gives out exactly the length the encoder was fed. *)
Theorem skips_fit_exactly
    (c : Config) (m : Demucs) (log : list Layer) (B L : Z) (mix : shape) :
  Demucs_init c [] = (Ok m, log) ->
  forward_config c = true ->
  float_exact c L = true ->
  1 <= B ->
  accepted_input c B L mix ->
  expanded_length c L mod c.(resample) = 0 ->
  exists std x0 xe es xb xd,
    let n := Z.to_nat c.(depth) in
    forward_input m mix = Ok (L, std, x0)
    /\ for_each m.(encoder) encode_step ({| t_shape := x0; t_expr := Input |}, [])
       = Ok (xe, es)
    /\ bottleneck m xe = Ok xb
    /\ for_each m.(decoder) decode_step (xb, es) = Ok (xd, [])
    /\ Torch.last_dim xd.(t_shape) = Torch.last_dim x0
    /\ forall j, (j < n)%nat ->
         exists xj skip,
           decoder_state m xb es j = Ok (xj, firstn (n - j) es)
           /\ pop_last (firstn (n - j) es) = Ok (skip, firstn (n - 1 - j) es)
           /\ skip.(t_shape) = xj.(t_shape).
Proof.
  intros E Hcfg HL HB Hmix Hdiv.
  apply init_inv in E. destruct E as [-> Hb].
  destruct (forward_config_inv c Hcfg) as (Hv & Hd & _).
  pose proof (divisible_input c L Hv Hdiv) as Hl0.
  destruct (valid_config_inv c Hv) as (_ & _ & Hk & Hs).
  set (n := Z.to_nat c.(depth)).
  set (l0 := encoder_input_length c L) in *.
  set (f := Torch.conv_len c.(kernel_size) c.(stride)).
  set (d := dec_len c.(kernel_size) c.(stride)).
  set (q := Nat.iter n (enc_len c.(kernel_size) c.(stride)) (L * c.(resample))).
  assert (El0 : l0 = Nat.iter n d q) by exact Hl0.
  assert (Ey : Nat.iter n f l0 = q).
  { rewrite El0. apply iter_conv_dec_id. assumption. }
  exists (if c.(normalize) then Some [B; 1; 1] else None), [B; c.(chin); l0],
    {| t_shape := [B; enc_in c n; Nat.iter n f l0]; t_expr := enc_expr c n |},
    (map (skip_tensor c B l0) (seq 0 n)),
    (dec_tensor c B n (Nat.iter n f l0) 0), (dec_tensor c B n (Nat.iter n f l0) n).
  cbv zeta.
  split; [exact (forward_input_ok c B L Hcfg HL mix Hmix) |].
  split; [exact (encoder_ok c B L Hcfg Hb HL) |].
  split; [exact (bottleneck_forward c B L Hcfg HL) |].
  split; [exact (decoder_ok c B L Hcfg Hb HL) |].
  split.
  - pose proof (decoder_output_shape c B L Hcfg HL) as Hsh.
    fold n l0 f d in Hsh. rewrite Hsh.
    cbn [Torch.last_dim rev app]. now rewrite Ey, <- El0.
  - intros j Hj.
    exists (dec_tensor c B n (Nat.iter n f l0) j), (skip_tensor c B l0 (n - 1 - j)).
    split; [apply (decoder_prefix_ok c B L Hcfg Hb HL); fold n; lia |].
    split.
    + replace (n - j)%nat with (S (n - 1 - j)) by lia.
      rewrite (firstn_snoc _ (n - 1 - j) (skip_tensor c B l0 (n - 1 - j)))
        by (apply nth_error_map_seq; lia).
      apply pop_last_snoc.
    + pose proof (dec_tensor_width c B L j Hj) as Hdw. fold n l0 f d in Hdw.
      rewrite Hdw. unfold skip_tensor, skip_shape. cbn [t_shape].
      do 2 f_equal. fold f d.
      rewrite Ey, El0.
      replace (S (n - 1 - j)) with (n - j)%nat by lia.
      unfold f, d. rewrite iter_conv_dec_split by (assumption || lia).
      replace (n - (n - j))%nat with j by lia. reflexivity.
Qed.

Lemma skips_fit_exactly_witness :
  exists m log std x0 xe es xb xd,
    let n := Z.to_nat default_config.(depth) in
    Demucs_init default_config [] = (Ok m, log)
    /\ forward_input m [3; 2; 1000] = Ok (1000, std, x0)
    /\ for_each m.(encoder) encode_step ({| t_shape := x0; t_expr := Input |}, [])
       = Ok (xe, es)
    /\ bottleneck m xe = Ok xb
    /\ for_each m.(decoder) decode_step (xb, es) = Ok (xd, [])
    /\ Torch.last_dim xd.(t_shape) = Torch.last_dim x0
    /\ forall j, (j < n)%nat ->
         exists xj skip,
           decoder_state m xb es j = Ok (xj, firstn (n - j) es)
           /\ pop_last (firstn (n - j) es) = Ok (skip, firstn (n - 1 - j) es)
           /\ skip.(t_shape) = xj.(t_shape).
Proof.
  destruct (skips_fit_exactly default_config (arch default_config)
              (snd (Demucs_init default_config [])) 3 1000 [3; 2; 1000])
    as (std & x0 & xe & es & xb & xd & H).
  - vm_compute. reflexivity.
  - reflexivity.
  - reflexivity.
  - lia.
  - left. reflexivity.
  - reflexivity.
  - exists (arch default_config), (snd (Demucs_init default_config [])),
      std, x0, xe, es, xb, xd.
    cbv zeta. split; [vm_compute; reflexivity | exact H].
Defined.
